(** * Binaural-beats player and Sbagen converter: a shallow embedding

    The development follows [cmd/binaural-beats/main.go] (the player) and the
    Sbagen-to-YAML converter.  Conventions of the embedding:

    - [float64] values are read as real numbers ([R]).  Rounding, infinities
      and NaN are outside the model; the one place where the real reading of
      an operation has no value, a division by zero, is an explicit [Fault].
    - Go run-time panics (index or slice bounds out of range) are [Fault]s of
      the same result monad, so "never fails" is a statement about the value
      a function returns.
    - [int] is a 64-bit two's-complement integer and [uint32] a 32-bit
      unsigned one; both live in [Z] with the wrap-around written out.
    - Closures over the breakpoint slice are functions that take the slice as
      their first argument. *)

From Stdlib Require Import String Ascii.
From Stdlib Require Import Reals Lra Lia ZArith Bool List Permutation.
Import ListNotations.

Local Open Scope R_scope.

(** ** Go run-time model *)

Module Go.

Inductive fault : Type :=
| IndexOutOfRange
| SliceBoundsOutOfRange
| DivisionByZero.

Inductive result (A : Type) : Type :=
| Ok (a : A)
| Fault (f : fault).

Arguments Ok {A} a.
Arguments Fault {A} f.

Definition ret {A : Type} (a : A) : result A := Ok a.

Definition bind {A B : Type} (c : result A) (k : A -> result B) : result B :=
  match c with
  | Ok a => k a
  | Fault f => Fault f
  end.

(** [l[i]]: panics when [i] is not below [len(l)]. *)
Definition index {A : Type} (l : list A) (i : nat) : result A :=
  match nth_error l i with
  | Some a => Ok a
  | None => Fault IndexOutOfRange
  end.

(** Comparisons of [float64] values, as booleans. *)
Definition fle (x y : R) : bool := if Rle_dec x y then true else false.
Definition flt (x y : R) : bool := if Rlt_dec x y then true else false.
Definition fge (x y : R) : bool := if Rge_dec x y then true else false.
Definition fgt (x y : R) : bool := if Rgt_dec x y then true else false.
Definition feq (x y : R) : bool := if Req_dec_T x y then true else false.

(** [x / y] on [float64]; a zero divisor has no real value. *)
Definition fdiv (x y : R) : result R :=
  if Req_dec_T y 0 then Fault DivisionByZero else Ok (x / y).

(** [int]: 64-bit two's complement. *)
Definition maxInt : Z := 2 ^ 63 - 1.
Definition wrapInt (z : Z) : Z := ((z + 2 ^ 63) mod 2 ^ 64 - 2 ^ 63)%Z.

(** [uint32]. *)
Definition wrapUint32 (z : Z) : Z := (z mod 2 ^ 32)%Z.

End Go.

Export Go.

Declare Scope go_scope.
Delimit Scope go_scope with go.
Notation "x <- c ;; k" := (bind c (fun x => k))
  (at level 61, c at next level, right associativity) : go_scope.
Notation "l !? i" := (index l i) (at level 20) : go_scope.
Notation "x <=? y" := (fle x y) (at level 70) : go_scope.
Notation "x <? y" := (flt x y) (at level 70) : go_scope.
Notation "x >=? y" := (fge x y) (at level 70) : go_scope.
Notation "x >? y" := (fgt x y) (at level 70) : go_scope.
Notation "x /? y" := (fdiv x y) (at level 40, left associativity) : go_scope.
Local Open Scope go_scope.

(** ** YAML documents

    What [yaml.Marshal] writes for a struct and [yaml.Unmarshal] reads into
    one: a mapping from the keys of the [yaml:"..."] field tags to scalars.
    A key that is absent from the mapping leaves the field at its zero
    value. *)

Module Yaml.

Inductive scalar : Type :=
| Float (x : R)
| Boolean (b : bool).

Definition mapping : Type := list (string * scalar).

Fixpoint lookup (key : string) (m : mapping) : option scalar :=
  match m with
  | [] => None
  | (k, v) :: rest => if String.eqb k key then Some v else lookup key rest
  end.

(** Decoding into a [float64] field. *)
Definition float64Field (key : string) (m : mapping) : option R :=
  match lookup key m with
  | None => Some 0
  | Some (Float x) => Some x
  | Some (Boolean _) => None
  end.

(** Decoding into a [bool] field. *)
Definition boolField (key : string) (m : mapping) : option bool :=
  match lookup key m with
  | None => Some false
  | Some (Boolean b) => Some b
  | Some (Float _) => None
  end.

End Yaml.

(** ** The player: [cmd/binaural-beats/main.go] *)

Module Player.

(** [ConfigFrequencyChange]: one breakpoint of the schedule. *)
Record ConfigFrequencyChange : Type := mkChange {
  Time : R;
  Frequency : R;
  BeatFrequency : R;
  PinkNoiseOn : bool;
  PinkNoiseVolume : R;
  ToneVolume : R
}.

(** [yaml.Unmarshal] into one [ConfigFrequencyChange]; [None] is a
    decoding error. *)
Definition unmarshalChange (m : Yaml.mapping) : option ConfigFrequencyChange :=
  match Yaml.float64Field "time" m, Yaml.float64Field "frequency" m,
        Yaml.float64Field "beat_frequency" m, Yaml.boolField "pink_noise_on" m,
        Yaml.float64Field "pink_noise_volume" m,
        Yaml.float64Field "tone_volume" m with
  | Some tm, Some f, Some bf, Some on, Some nv, Some tv =>
      Some (mkChange tm f bf on nv tv)
  | _, _, _, _, _, _ => None
  end.

Fixpoint unmarshalChanges (doc : list Yaml.mapping)
  : option (list ConfigFrequencyChange) :=
  match doc with
  | [] => Some []
  | m :: rest =>
      match unmarshalChange m, unmarshalChanges rest with
      | Some c, Some cs => Some (c :: cs)
      | _, _ => None
      end
  end.

(** [parseConfig], from the decoded [frequency_changes] sequence on.
    [sortSlice] stands for [sort.Slice] with the comparison
    [changes[i].Time < changes[j].Time]; that sort is not stable, so only
    what the callers assume about it is fixed where it is used. *)
Definition parseConfig
           (sortSlice : list ConfigFrequencyChange -> list ConfigFrequencyChange)
           (doc : list Yaml.mapping) : option (list ConfigFrequencyChange) :=
  match unmarshalChanges doc with
  | Some cs => Some (sortSlice cs)
  | None => None
  end.

(** *** Schedule query functions *)

(** The loop [for i := 0; i < len(changes)-1; i++] of [createFreqFunc];
    [n] counts the iterations that remain, and the last case is the
    statement after the loop. *)
Fixpoint freqLoop (changes : list ConfigFrequencyChange) (t : R)
         (n i : nat) : result R :=
  match n with
  | O =>
      cl <- changes !? (length changes - 1) ;;
      ret (Frequency cl)
  | S n' =>
      ci <- changes !? i ;;
      inside <- (if t >=? Time ci
                 then cj <- changes !? (i + 1) ;; ret (t <? Time cj)
                 else ret false) ;;
      if inside : bool then
        ci <- changes !? i ;;
        cj <- changes !? (i + 1) ;;
        let t1 := Time ci in
        let t2 := Time cj in
        let f1 := Frequency ci in
        let f2 := Frequency cj in
        q <- ((f2 - f1) * (t - t1)) /? (t2 - t1) ;;
        ret (f1 + q)
      else freqLoop changes t n' (S i)
  end.

Definition createFreqFunc (changes : list ConfigFrequencyChange) (t : R)
  : result R :=
  if (length changes =? 0)%nat then ret 0
  else
    c0 <- changes !? 0 ;;
    if t <=? Time c0 then ret (Frequency c0)
    else
      cl <- changes !? (length changes - 1) ;;
      if t >=? Time cl then ret (Frequency cl)
      else freqLoop changes t (length changes - 1) 0.

(** [createBeatFreqFunc]: the same search on [BeatFrequency]. *)
Fixpoint beatFreqLoop (changes : list ConfigFrequencyChange) (t : R)
         (n i : nat) : result R :=
  match n with
  | O =>
      cl <- changes !? (length changes - 1) ;;
      ret (BeatFrequency cl)
  | S n' =>
      ci <- changes !? i ;;
      inside <- (if t >=? Time ci
                 then cj <- changes !? (i + 1) ;; ret (t <? Time cj)
                 else ret false) ;;
      if inside : bool then
        ci <- changes !? i ;;
        cj <- changes !? (i + 1) ;;
        let t1 := Time ci in
        let t2 := Time cj in
        let bf1 := BeatFrequency ci in
        let bf2 := BeatFrequency cj in
        q <- ((bf2 - bf1) * (t - t1)) /? (t2 - t1) ;;
        ret (bf1 + q)
      else beatFreqLoop changes t n' (S i)
  end.

Definition createBeatFreqFunc (changes : list ConfigFrequencyChange) (t : R)
  : result R :=
  if (length changes =? 0)%nat then ret 0
  else
    c0 <- changes !? 0 ;;
    if t <=? Time c0 then ret (BeatFrequency c0)
    else
      cl <- changes !? (length changes - 1) ;;
      if t >=? Time cl then ret (BeatFrequency cl)
      else beatFreqLoop changes t (length changes - 1) 0.

(** [createVolumeFunc]: the same search on [ToneVolume]; an empty slice
    gives volume 1. *)
Fixpoint volumeLoop (changes : list ConfigFrequencyChange) (t : R)
         (n i : nat) : result R :=
  match n with
  | O =>
      cl <- changes !? (length changes - 1) ;;
      ret (ToneVolume cl)
  | S n' =>
      ci <- changes !? i ;;
      inside <- (if t >=? Time ci
                 then cj <- changes !? (i + 1) ;; ret (t <? Time cj)
                 else ret false) ;;
      if inside : bool then
        ci <- changes !? i ;;
        cj <- changes !? (i + 1) ;;
        let t1 := Time ci in
        let t2 := Time cj in
        let v1 := ToneVolume ci in
        let v2 := ToneVolume cj in
        q <- ((v2 - v1) * (t - t1)) /? (t2 - t1) ;;
        ret (v1 + q)
      else volumeLoop changes t n' (S i)
  end.

Definition createVolumeFunc (changes : list ConfigFrequencyChange) (t : R)
  : result R :=
  if (length changes =? 0)%nat then ret 1
  else
    c0 <- changes !? 0 ;;
    if t <=? Time c0 then ret (ToneVolume c0)
    else
      cl <- changes !? (length changes - 1) ;;
      if t >=? Time cl then ret (ToneVolume cl)
      else volumeLoop changes t (length changes - 1) 0.

(** [createPinkNoiseFunc]: the same search, but the settings of the lower
    breakpoint are returned as they are. *)
Fixpoint pinkNoiseLoop (changes : list ConfigFrequencyChange) (t : R)
         (n i : nat) : result (bool * R) :=
  match n with
  | O =>
      cl <- changes !? (length changes - 1) ;;
      ret (PinkNoiseOn cl, PinkNoiseVolume cl)
  | S n' =>
      ci <- changes !? i ;;
      inside <- (if t >=? Time ci
                 then cj <- changes !? (i + 1) ;; ret (t <? Time cj)
                 else ret false) ;;
      if inside : bool then
        ci <- changes !? i ;;
        ret (PinkNoiseOn ci, PinkNoiseVolume ci)
      else pinkNoiseLoop changes t n' (S i)
  end.

Definition createPinkNoiseFunc (changes : list ConfigFrequencyChange) (t : R)
  : result (bool * R) :=
  if (length changes =? 0)%nat then ret (false, 0)
  else
    c0 <- changes !? 0 ;;
    if t <=? Time c0 then ret (PinkNoiseOn c0, PinkNoiseVolume c0)
    else
      cl <- changes !? (length changes - 1) ;;
      if t >=? Time cl then ret (PinkNoiseOn cl, PinkNoiseVolume cl)
      else pinkNoiseLoop changes t (length changes - 1) 0.

(** [getTotalPlaybackTime]: the running maximum of the [range] loop starts
    at [changes[0].Time]. *)
Definition getTotalPlaybackTime (changes : list ConfigFrequencyChange)
  : result R :=
  if (length changes =? 0)%nat then ret 0
  else
    c0 <- changes !? 0 ;;
    ret (fold_left
           (fun maxTime change =>
              if Time change >? maxTime then Time change else maxTime)
           changes (Time c0)).

(** *** Streamers *)

(** One stereo frame, [[2]float64]. *)
Definition Frame : Type := (R * R)%type.

(** [beep.Streamer]: [Stream] fills a buffer and reports [(n, ok)]; here it
    returns the streamer's next state and the buffer as well. *)
Class Streamer (S : Type) : Type :=
  Stream : S -> list Frame -> result (S * list Frame * nat * bool).

(** [for i := range samples { ... samples[i] ... }] with a body that
    updates the receiver and the frame at [i]. *)
Fixpoint forRange {S : Type} (body : S -> Frame -> result (S * Frame))
         (s : S) (samples : list Frame) : result (S * list Frame) :=
  match samples with
  | [] => ret (s, [])
  | fr :: rest =>
      r <- body s fr ;;
      r' <- forRange body (fst r) rest ;;
      ret (fst r', snd r :: snd r')
  end.

(** [PinkNoise]: the Voss-McCartney generator. *)
Module PinkNoise.

(** [*rand.Rand], as the sequence of values its [Float64] calls return
    and the number of calls made so far. *)
Record Rand : Type := mkRand {
  draws : nat -> R;
  drawn : nat
}.

Definition Float64 (r : Rand) : R * Rand :=
  (draws r (drawn r), {| draws := draws r; drawn := S (drawn r) |}).

Record t : Type := mk {
  rand : Rand;
  maxKey : Z;
  key : Z;
  white : list R   (* [5]float64 *)
}.

(** [NewPinkNoise]; the time-seeded source is an argument. *)
Definition NewPinkNoise (source : Rand) : t :=
  {| rand := source; maxKey := 31; key := 0; white := [0; 0; 0; 0; 0] |}.

(** [a[i] = v]. *)
Definition assign (a : list R) (i : nat) (v : R) : result (list R) :=
  if (i <? length a)%nat
  then ret (firstn i a ++ v :: skipn (S i) a)
  else Fault IndexOutOfRange.

(** The loop [for i := 0; i < 5; i++] of [nextSample]. *)
Fixpoint redraw (diff : Z) (n i : nat) (r : Rand) (w : list R)
  : result (Rand * list R) :=
  match n with
  | O => ret (r, w)
  | S n' =>
      if negb (Z.land diff (Z.shiftl 1 (Z.of_nat i)) =? 0)%Z then
        let d := Float64 r in
        w' <- assign w i (fst d * 2 - 1) ;;
        redraw diff n' (S i) (snd d) w'
      else redraw diff n' (S i) r w
  end.

Definition nextSample (pn : t) : result (R * t) :=
  let lastKey := key pn in
  let key1 := wrapUint32 (key pn + 1) in
  let key2 := if (key1 >? maxKey pn)%Z then 0%Z else key1 in
  let diff := Z.lxor lastKey key2 in
  rw <- redraw diff 5 0 (rand pn) (white pn) ;;
  let w := snd rw in
  w0 <- w !? 0 ;;
  w1 <- w !? 1 ;;
  w2 <- w !? 2 ;;
  w3 <- w !? 3 ;;
  w4 <- w !? 4 ;;
  let sum := w0 + w1 + w2 + w3 + w4 in
  ret (sum * 0.1,
       {| rand := fst rw; maxKey := maxKey pn; key := key2; white := w |}).

Definition Stream (pn : t) (samples : list Frame)
  : result (t * list Frame * nat * bool) :=
  r <- forRange
         (fun pn fr =>
            sp <- nextSample pn ;;
            let sample := fst sp in
            ret (snd sp, (fst fr + sample, snd fr + sample)))
         pn samples ;;
  ret (fst r, snd r, length samples, true).

#[global] Instance streamer : Streamer t := Stream.

End PinkNoise.

(** [VariableTone]: a sine oscillator whose frequency follows [freqFunc]. *)
Module VariableTone.

Record t : Type := mk {
  sr : Z;
  pos : Z;
  phase : R;
  freqFunc : R -> result R;
  volumeFunc : R -> result R;
  channel : Z
}.

(** The body of the loop of [Stream]. *)
Definition body (vt : t) (fr : Frame) : result (t * Frame) :=
  t <- IZR (pos vt) /? IZR (sr vt) ;;
  f <- freqFunc vt t ;;
  vol <- volumeFunc vt t ;;
  deltaPhase <- (2 * PI * f) /? IZR (sr vt) ;;
  let phase' := phase vt + deltaPhase in
  let s := sin phase' * vol * 0.5 in
  let fr' := if (channel vt =? 0)%Z
             then (fst fr + s, snd fr)
             else (fst fr, snd fr + s) in
  ret ({| sr := sr vt; pos := wrapInt (pos vt + 1); phase := phase';
          freqFunc := freqFunc vt; volumeFunc := volumeFunc vt;
          channel := channel vt |}, fr').

Definition Stream (vt : t) (samples : list Frame)
  : result (t * list Frame * nat * bool) :=
  r <- forRange body vt samples ;;
  ret (fst r, snd r, length samples, true).

#[global] Instance streamer : Streamer t := Stream.

End VariableTone.

(** [PinkNoiseControl]: gates and scales the stream it wraps. *)
Module PinkNoiseControl.

Record t (S : Type) : Type := mk {
  stream : S;
  volumeFunc : R -> result (bool * R);
  sr : Z;
  pos : Z
}.

Arguments mk {S}.
Arguments stream {S}.
Arguments volumeFunc {S}.
Arguments sr {S}.
Arguments pos {S}.

(** The body of the loop of [Stream]. *)
Definition body {S : Type} (pnc : t S) (fr : Frame)
  : result (t S * Frame) :=
  t <- IZR (pos pnc) /? IZR (sr pnc) ;;
  ov <- volumeFunc pnc t ;;
  let on := fst ov in
  let vol := snd ov in
  let fr' := if negb on then (0, 0)
             else let s := fst fr * vol * 0.5 in (s, s) in
  ret ({| stream := stream pnc; volumeFunc := volumeFunc pnc;
          sr := sr pnc; pos := wrapInt (pos pnc + 1) |}, fr').

(** [Stream] on a buffer [samples] cut from an array that has room for
    [capacity] frames ([cap(samples)]).  [samples[:n]] is checked against
    the capacity; the loop then indexes [samples[i]], which is checked
    against the length.  So an [n] above the capacity panics before any
    frame is gated, and an [n] between the length and the capacity gates
    every frame of the buffer, evaluates the time and the volume function
    for index [len(samples)] and panics on [samples[i]]. *)
Definition StreamCap {S : Type} `{Streamer S} (capacity : nat) (pnc : t S)
           (samples : list Frame)
  : result (t S * list Frame * nat * bool) :=
  inner <- Player.Stream (stream pnc) samples ;;
  let '(st, samples1, n, ok) := inner in
  let pnc1 := {| stream := st; volumeFunc := volumeFunc pnc;
                 sr := sr pnc; pos := pos pnc |} in
  if (capacity <? n)%nat then Fault SliceBoundsOutOfRange
  else if (length samples1 <? n)%nat then
    r <- forRange body pnc1 samples1 ;;
    t <- IZR (pos (fst r)) /? IZR (sr (fst r)) ;;
    ov <- volumeFunc (fst r) t ;;
    Fault IndexOutOfRange
  else
    r <- forRange body pnc1 (firstn n samples1) ;;
    ret (fst r, snd r ++ skipn n samples1, n, ok).

(** [Stream] on a buffer that fills its array ([cap(samples) =
    len(samples)]). *)
Definition Stream {S : Type} `{Streamer S} (pnc : t S)
           (samples : list Frame)
  : result (t S * list Frame * nat * bool) :=
  StreamCap (length samples) pnc samples.

#[global] Instance streamer {S : Type} `{Streamer S} : Streamer (t S) :=
  Stream.

End PinkNoiseControl.

(** *** [main], up to the construction of the three streamers

    The argument [parsed] is the slice [parseConfig] returned (read from
    YAML and sorted by time); [source] is the random source of
    [NewPinkNoise].  Mixing, truncation and the audio sink belong to the
    beep library. *)

Inductive outcome : Type :=
| Fatal (msg : string)
| Playing (leftTone rightTone : VariableTone.t)
          (pinkNoiseControl : PinkNoiseControl.t PinkNoise.t).

Definition stretch (stretchFactor : R) (c : ConfigFrequencyChange)
  : ConfigFrequencyChange :=
  {| Time := Time c * stretchFactor; Frequency := Frequency c;
     BeatFrequency := BeatFrequency c; PinkNoiseOn := PinkNoiseOn c;
     PinkNoiseVolume := PinkNoiseVolume c; ToneVolume := ToneVolume c |}.

Definition freqFuncLeft (changes : list ConfigFrequencyChange) (t : R)
  : result R :=
  createFreqFunc changes t.

Definition freqFuncRight (changes : list ConfigFrequencyChange) (t : R)
  : result R :=
  b <- createFreqFunc changes t ;;
  bf <- createBeatFreqFunc changes t ;;
  ret (b + bf).

Definition leftTone (changes : list ConfigFrequencyChange) : VariableTone.t :=
  {| VariableTone.sr := 44100; VariableTone.pos := 0;
     VariableTone.phase := 0;
     VariableTone.freqFunc := freqFuncLeft changes;
     VariableTone.volumeFunc := createVolumeFunc changes;
     VariableTone.channel := 0 |}.

Definition rightTone (changes : list ConfigFrequencyChange) : VariableTone.t :=
  {| VariableTone.sr := 44100; VariableTone.pos := 0;
     VariableTone.phase := 0;
     VariableTone.freqFunc := freqFuncRight changes;
     VariableTone.volumeFunc := createVolumeFunc changes;
     VariableTone.channel := 1 |}.

Definition pinkNoiseControl (changes : list ConfigFrequencyChange)
           (source : PinkNoise.Rand) : PinkNoiseControl.t PinkNoise.t :=
  {| PinkNoiseControl.stream := PinkNoise.NewPinkNoise source;
     PinkNoiseControl.volumeFunc := createPinkNoiseFunc changes;
     PinkNoiseControl.sr := 44100; PinkNoiseControl.pos := 0 |}.

Definition main (stretchFactor : R) (parsed : list ConfigFrequencyChange)
           (source : PinkNoise.Rand) : result outcome :=
  let changes := map (stretch stretchFactor) parsed in
  totalPlaybackTime <- getTotalPlaybackTime changes ;;
  if feq totalPlaybackTime 0
  then ret (Fatal "Total playback time is zero. Check your configuration.")
  else ret (Playing (leftTone changes) (rightTone changes)
                    (pinkNoiseControl changes source)).

End Player.

(** ** The Sbagen converter *)

Module Converter.

(** [ToneSet]: one tone-set definition. *)
Record ToneSet : Type := mkToneSet {
  Name : string;
  TsFrequency : R;
  TsBeatFrequency : R;
  TsPinkNoiseVolume : R;
  TsToneVolume : R
}.

(** [FrequencyChange]: one entry of the YAML output. *)
Record FrequencyChange : Type := mkFrequencyChange {
  Time : R;
  Frequency : R;
  BeatFrequency : R;
  PinkNoiseVolume : R;
  ToneVolume : R
}.

Inductive error : Type :=
| InvalidTimeSequenceLine (line : string)
| InvalidRelativeTime (relTimeStr : string)
| InvalidAbsoluteTime (timeSpec : string)
| ToneSetNotDefined (toneSetName : string)
| InvalidTime (timeStr : string).

Section Convert.

(** Library functions the converter calls: [strings.Split(s, ":")],
    [strconv.Atoi], and the match of the time-sequence regular expression
    with its submatches 1 and 2. *)
Variable splitColon : string -> list string.
Variable Atoi : string -> option Z.
Variable timeSeqRegex : string -> option (string * string).

Definition parseTimeToSeconds (timeStr : string) : error + R :=
  let parts := splitColon timeStr in
  if ((length parts <? 2) || (3 <? length parts))%nat
  then inl (InvalidTime timeStr)
  else
    match Atoi (nth 0 parts EmptyString) with
    | None => inl (InvalidTime timeStr)
    | Some hours =>
        match Atoi (nth 1 parts EmptyString) with
        | None => inl (InvalidTime timeStr)
        | Some minutes =>
            let finish (seconds : Z) : error + R :=
              inr (IZR (wrapInt (wrapInt (wrapInt (hours * 3600)
                                          + wrapInt (minutes * 60))
                                 + seconds))) in
            if (length parts =? 3)%nat then
              match Atoi (nth 2 parts EmptyString) with
              | None => inl (InvalidTime timeStr)
              | Some seconds => finish seconds
              end
            else finish 0%Z
        end
    end.

(** [strings.HasPrefix(s, "+")] and [strings.TrimPrefix(s, "+")]. *)
Definition hasPlusPrefix (s : string) : bool := String.prefix "+" s.
Definition trimPlusPrefix (s : string) : string :=
  if hasPlusPrefix s then String.substring 1 (String.length s - 1) s else s.

(** The loop of [convertToFrequencyChanges] over the time-sequence lines;
    [acc] is the slice built so far. *)
Fixpoint convertLoop (toneSets : string -> option ToneSet)
         (timeSequence : list string) (lastAbsoluteTime : R)
         (acc : list FrequencyChange) : error + list FrequencyChange :=
  match timeSequence with
  | [] => inr acc
  | line :: rest =>
      match timeSeqRegex line with
      | None => inl (InvalidTimeSequenceLine line)
      | Some (timeSpec, toneSetName) =>
          let timed : error + (R * R) :=
            if String.eqb timeSpec "NOW" then inr (0, 0)
            else if hasPlusPrefix timeSpec then
              let relTimeStr := trimPlusPrefix timeSpec in
              match parseTimeToSeconds relTimeStr with
              | inl _ => inl (InvalidRelativeTime relTimeStr)
              | inr relSeconds =>
                  inr (lastAbsoluteTime + relSeconds, lastAbsoluteTime)
              end
            else
              match parseTimeToSeconds timeSpec with
              | inl _ => inl (InvalidAbsoluteTime timeSpec)
              | inr absSeconds => inr (absSeconds, absSeconds)
              end in
          match timed with
          | inl e => inl e
          | inr (newTime, lastAbsoluteTime') =>
              match toneSets toneSetName with
              | None => inl (ToneSetNotDefined toneSetName)
              | Some toneSet =>
                  let fc := {| Time := newTime;
                               Frequency := TsFrequency toneSet;
                               BeatFrequency := TsBeatFrequency toneSet;
                               PinkNoiseVolume := TsPinkNoiseVolume toneSet;
                               ToneVolume := TsToneVolume toneSet |} in
                  convertLoop toneSets rest lastAbsoluteTime' (acc ++ [fc])
              end
          end
      end
  end.

Definition convertToFrequencyChanges (toneSets : string -> option ToneSet)
           (timeSequence : list string) : error + list FrequencyChange :=
  convertLoop toneSets timeSequence 0 [].

End Convert.

(** [yaml.Marshal] of one [FrequencyChange]: one key per field. *)
Definition marshalChange (fc : FrequencyChange) : Yaml.mapping :=
  [ ("time"%string, Yaml.Float (Time fc));
    ("frequency"%string, Yaml.Float (Frequency fc));
    ("beat_frequency"%string, Yaml.Float (BeatFrequency fc));
    ("pink_noise_volume"%string, Yaml.Float (PinkNoiseVolume fc));
    ("tone_volume"%string, Yaml.Float (ToneVolume fc)) ].

(** The converter's [main] from the parsed tone sets and time sequence to
    the [frequency_changes] sequence of the YAML it writes. *)
Definition convert (splitColon : string -> list string)
           (Atoi : string -> option Z)
           (timeSeqRegex : string -> option (string * string))
           (sortSlice : list FrequencyChange -> list FrequencyChange)
           (toneSets : string -> option ToneSet)
           (timeSequence : list string) : error + list Yaml.mapping :=
  match convertToFrequencyChanges splitColon Atoi timeSeqRegex
                                  toneSets timeSequence with
  | inl e => inl e
  | inr frequencyChanges => inr (map marshalChange (sortSlice frequencyChanges))
  end.

(** *** Reading the Sbagen file: [parseToneSet] and [parseSbagen] *)

Inductive parseError : Type :=
| InvalidPinkAmplitude (ampStr : string)
| InvalidToneSpecification (part : string)
| InvalidCarrierFrequency (carrierStr : string)
| InvalidBeatFrequency (freqStr : string)
| InvalidToneAmplitude (ampStr : string)
| ErrorParsingToneSet (name : string) (err : parseError)
| InvalidSequenceLine (line : string)
| NoToneSetDefinitions
| NoTimeSequenceDefinitions.

(** [strings.TrimPrefix]. *)
Definition trimPrefix (s pre : string) : string :=
  if String.prefix pre s
  then String.substring (String.length pre) (String.length s - String.length pre) s
  else s.

(** [map[string]ToneSet]: the entries in the order of their last
    assignment; [toneSets[name] = toneSet] replaces an entry of that name. *)
Definition toneMap : Type := list (string * ToneSet).

Definition put (name : string) (toneSet : ToneSet) (m : toneMap) : toneMap :=
  filter (fun e => negb (String.eqb (fst e) name)) m ++ [(name, toneSet)].

Fixpoint get (m : toneMap) (name : string) : option ToneSet :=
  match m with
  | [] => None
  | (k, v) :: rest => if String.eqb k name then Some v else get rest name
  end.

Section Parse.

(** Library functions: [strings.Fields], [strings.TrimSpace],
    [strconv.ParseFloat(s, 64)], the match of the tone expression with its
    submatches 1, 3 and 4 (submatch 2, the sign, is never read), the match
    of the tone-set expression with its submatches 1 and 2, and the match of
    the time-sequence expression. *)
Variable Fields : string -> list string.
Variable TrimSpace : string -> string.
Variable ParseFloat : string -> option R.
Variable toneRegex : string -> option (string * string * string).
Variable toneSetRegex : string -> option (string * string).
Variable timeSeqRegex : string -> option (string * string).

(** The parts of a tone-set definition that [parseToneSet] passes over. *)
Definition passedOver (part : string) : bool :=
  negb (String.prefix "pink/" part)
  && (String.prefix "mix/" part
      || (String.prefix "bell" part || String.prefix "spin:" part
          || String.prefix "wave" part)).

(** The loop of [parseToneSet] over the parts of a definition. *)
Fixpoint toneLoop (parts : list string) (toneSet : ToneSet)
  : ToneSet * option parseError :=
  match parts with
  | [] => (toneSet, None)
  | part :: rest =>
      if String.prefix "pink/" part then
        let ampStr := trimPrefix part "pink/" in
        match ParseFloat ampStr with
        | None => (toneSet, Some (InvalidPinkAmplitude ampStr))
        | Some amp =>
            toneLoop rest
              {| Name := Name toneSet; TsFrequency := TsFrequency toneSet;
                 TsBeatFrequency := TsBeatFrequency toneSet;
                 TsPinkNoiseVolume := amp / 100;
                 TsToneVolume := TsToneVolume toneSet |}
        end
      else if String.prefix "mix/" part then toneLoop rest toneSet
      else if String.prefix "bell" part || String.prefix "spin:" part
              || String.prefix "wave" part then toneLoop rest toneSet
      else
        match toneRegex part with
        | None => (toneSet, Some (InvalidToneSpecification part))
        | Some (carrierStr, freqStr, ampStr) =>
            match ParseFloat carrierStr with
            | None => (toneSet, Some (InvalidCarrierFrequency carrierStr))
            | Some carrier =>
                let beat : parseError + R :=
                  if negb (String.eqb freqStr "") then
                    match ParseFloat freqStr with
                    | None => inl (InvalidBeatFrequency freqStr)
                    | Some b => inr b
                    end
                  else inr 0 in
                match beat with
                | inl e => (toneSet, Some e)
                | inr beatFreq =>
                    let amplitude : parseError + R :=
                      if negb (String.eqb ampStr "") then
                        match ParseFloat ampStr with
                        | None => inl (InvalidToneAmplitude ampStr)
                        | Some a => inr (a / 100)
                        end
                      else inr 0 in
                    match amplitude with
                    | inl e => (toneSet, Some e)
                    | inr amp =>
                        toneLoop rest
                          {| Name := Name toneSet; TsFrequency := carrier;
                             TsBeatFrequency := beatFreq;
                             TsPinkNoiseVolume := TsPinkNoiseVolume toneSet;
                             TsToneVolume := TsToneVolume toneSet + amp |}
                    end
                end
            end
        end
  end.

Definition parseToneSet (name specs : string) : ToneSet * option parseError :=
  let toneSet := {| Name := name; TsFrequency := 0; TsBeatFrequency := 0;
                    TsPinkNoiseVolume := 0; TsToneVolume := 0 |} in
  if String.eqb specs "-" then (toneSet, None)
  else toneLoop (Fields specs) toneSet.

(** A line [parseSbagen] skips: empty after trimming, or a comment. *)
Definition skipped (line : string) : bool :=
  String.eqb line "" || String.prefix "##" line || String.prefix "#" line.

(** The loop of [parseSbagen] over the lines of the file. *)
Fixpoint sbagenLoop (lines : list string) (toneSets : toneMap)
         (timeSequence : list string) (parsingToneSets : bool)
  : parseError + (toneMap * list string) :=
  match lines with
  | [] => inr (toneSets, timeSequence)
  | text :: rest =>
      let line := TrimSpace text in
      if skipped line
      then sbagenLoop rest toneSets timeSequence parsingToneSets
      else
        let defined : parseError + (toneMap * bool) :=
          if parsingToneSets then
            match toneSetRegex line with
            | Some (name, specs) =>
                match parseToneSet name specs with
                | (_, Some err) => inl (ErrorParsingToneSet name err)
                | (toneSet, None) => inr (put name toneSet toneSets, true)
                end
            | None => inr (toneSets, false)
            end
          else inr (toneSets, false) in
        match defined with
        | inl e => inl e
        | inr (toneSets', parsingToneSets') =>
            if negb parsingToneSets' then
              match timeSeqRegex line with
              | Some _ =>
                  sbagenLoop rest toneSets' (timeSequence ++ [line])
                             parsingToneSets'
              | None => inl (InvalidSequenceLine line)
              end
            else sbagenLoop rest toneSets' timeSequence parsingToneSets'
        end
  end.

(** [parseSbagen], from the lines the scanner returns. *)
Definition parseSbagen (lines : list string)
  : parseError + (toneMap * list string) :=
  match sbagenLoop lines [] [] true with
  | inl e => inl e
  | inr (toneSets, timeSequence) =>
      if (length toneSets =? 0)%nat then inl NoToneSetDefinitions
      else if (length timeSequence =? 0)%nat then inl NoTimeSequenceDefinitions
      else inr (toneSets, timeSequence)
  end.

End Parse.

End Converter.

(** ** The common shape of the four schedule query functions

    The four closures of [main.go] differ in the field they read, in the
    value for an empty slice and in what they return inside an interval.
    [scan] is that shared search; it is used to reason about the four
    functions, each of which is shown equal to one of its instances. *)

Module Shape.

Import Player.

Definition zeroChange : ConfigFrequencyChange := mkChange 0 0 0 false 0 0.

(** [changes[i]] and [changes[i].Time] for an index that is in range. *)
Definition changeAt (changes : list ConfigFrequencyChange) (i : nat)
  : ConfigFrequencyChange := nth i changes zeroChange.

Definition timeAt (changes : list ConfigFrequencyChange) (i : nat) : R :=
  Time (changeAt changes i).

(** The linear interpolation of one field between two breakpoints, with
    the operations in the order of the source expression. *)
Definition lerp (field : ConfigFrequencyChange -> R)
           (ci cj : ConfigFrequencyChange) (t : R) : result R :=
  q <- ((field cj - field ci) * (t - Time ci)) /? (Time cj - Time ci) ;;
  ret (field ci + q).

(** The step value: the noise settings of one breakpoint. *)
Definition noiseOf (c : ConfigFrequencyChange) : bool * R :=
  (PinkNoiseOn c, PinkNoiseVolume c).

Definition step (ci cj : ConfigFrequencyChange) (t : R) : result (bool * R) :=
  ret (noiseOf ci).

Section Scan.

Context {A : Type}.
Variable empty : A.
Variable at_ : ConfigFrequencyChange -> A.
Variable hit : ConfigFrequencyChange -> ConfigFrequencyChange -> R -> result A.

Fixpoint scanLoop (changes : list ConfigFrequencyChange) (t : R)
         (n i : nat) : result A :=
  match n with
  | O =>
      cl <- changes !? (length changes - 1) ;;
      ret (at_ cl)
  | S n' =>
      ci <- changes !? i ;;
      inside <- (if t >=? Time ci
                 then cj <- changes !? (i + 1) ;; ret (t <? Time cj)
                 else ret false) ;;
      if inside : bool then
        ci <- changes !? i ;;
        cj <- changes !? (i + 1) ;;
        hit ci cj t
      else scanLoop changes t n' (S i)
  end.

Definition scan (changes : list ConfigFrequencyChange) (t : R) : result A :=
  if (length changes =? 0)%nat then ret empty
  else
    c0 <- changes !? 0 ;;
    if t <=? Time c0 then ret (at_ c0)
    else
      cl <- changes !? (length changes - 1) ;;
      if t >=? Time cl then ret (at_ cl)
      else scanLoop changes t (length changes - 1) 0.

End Scan.

(** Breakpoint times that strictly increase, or do not decrease, from each
    index to the next. *)
Definition strictlyIncreasing (changes : list ConfigFrequencyChange) : Prop :=
  forall i, (i + 1 < length changes)%nat ->
            timeAt changes i < timeAt changes (i + 1).

Definition nonDecreasing (changes : list ConfigFrequencyChange) : Prop :=
  forall i, (i + 1 < length changes)%nat ->
            timeAt changes i <= timeAt changes (i + 1).

(** The linear value of a field at [t] on the interval that starts at
    breakpoint [i]. *)
Definition linearValue (field : ConfigFrequencyChange -> R)
           (changes : list ConfigFrequencyChange) (i : nat) (t : R) : R :=
  field (changeAt changes i)
  + (field (changeAt changes (i + 1)) - field (changeAt changes i))
    * (t - timeAt changes i)
    / (timeAt changes (i + 1) - timeAt changes i).

(** What one evaluation of a linear query function amounts to: a clamp to
    the first or to the last breakpoint, which divides nothing, or the linear
    value on an interval that contains [t] and has a positive width. *)
Definition clampedOrInterpolated (field : ConfigFrequencyChange -> R)
           (changes : list ConfigFrequencyChange) (t : R) (r : result R) : Prop :=
  r = Ok (field (changeAt changes 0))
  \/ r = Ok (field (changeAt changes (length changes - 1)))
  \/ exists i, (i + 1 < length changes)%nat
               /\ timeAt changes i <= t < timeAt changes (i + 1)
               /\ 0 < timeAt changes (i + 1) - timeAt changes i
               /\ r = Ok (linearValue field changes i t).

End Shape.

(** ** Reference quantities for the streamers *)

Module Signal.

Import Player.

(** The accumulated phase after [k] samples of an oscillator that started at
    position [pos0] with phase [phase0]: every sample at position [n] adds
    [2 * PI * freqAt (n / sr) / sr], and nothing is ever taken away. *)
Fixpoint phaseAfter (freqAt : R -> R) (sr pos0 : Z) (phase0 : R) (k : nat) : R :=
  match k with
  | O => phase0
  | S k' =>
      phaseAfter freqAt sr pos0 phase0 k'
      + 2 * PI * freqAt (IZR (pos0 + Z.of_nat k') / IZR sr) / IZR sr
  end.

(** The next [k] mono samples of a pink-noise generator, and the generator
    after them. *)
Fixpoint pinkSamples (pn : PinkNoise.t) (k : nat)
  : result (list R * PinkNoise.t) :=
  match k with
  | O => ret ([], pn)
  | S k' =>
      sp <- PinkNoise.nextSample pn ;;
      r <- pinkSamples (snd sp) k' ;;
      ret (fst sp :: fst r, snd r)
  end.

(** What [PinkNoise.Stream] leaves in a buffer: each mono sample added to
    both channels of its frame. *)
Fixpoint addMono (samples : list Frame) (noise : list R) : list Frame :=
  match samples, noise with
  | fr :: rest, p :: ps => (fst fr + p, snd fr + p) :: addMono rest ps
  | _, _ => []
  end.

(** What holds of a noise gate [pnc] that has processed [j] frames of the
    buffer it was given as [pnc0]. *)
Definition gateInv {S : Type} (pnc0 : PinkNoiseControl.t S) (j : nat)
           (pnc : PinkNoiseControl.t S) : Prop :=
  PinkNoiseControl.sr pnc = PinkNoiseControl.sr pnc0
  /\ PinkNoiseControl.pos pnc = (PinkNoiseControl.pos pnc0 + Z.of_nat j)%Z
  /\ PinkNoiseControl.volumeFunc pnc = PinkNoiseControl.volumeFunc pnc0
  /\ PinkNoiseControl.stream pnc = PinkNoiseControl.stream pnc0.

(** The value of a query that succeeded. *)
Definition valueOf (r : result R) : R :=
  match r with
  | Ok v => v
  | Fault _ => 0
  end.

(** The settings of a noise query that succeeded. *)
Definition noiseValueOf (r : result (bool * R)) : bool * R :=
  match r with
  | Ok v => v
  | Fault _ => (false, 0)
  end.

(** What the player reads back from the YAML entry the converter writes for
    [fc]: the five fields it finds, and the zero value [false] for the
    [pink_noise_on] key it does not find. *)
Definition asLoaded (fc : Converter.FrequencyChange) : ConfigFrequencyChange :=
  mkChange (Converter.Time fc) (Converter.Frequency fc)
           (Converter.BeatFrequency fc) false
           (Converter.PinkNoiseVolume fc) (Converter.ToneVolume fc).

(** Whether bit [i] of [diff] is set, as [nextSample] tests it. *)
Definition bitSet (diff : Z) (i : nat) : bool :=
  negb (Z.land diff (Z.shiftl 1 (Z.of_nat i)) =? 0)%Z.

(** The key that follows [k] on a generator with [maxKey = 31]. *)
Definition nextKey (k : Z) : Z := ((k + 1) mod 32)%Z.

(** A generator as [NewPinkNoise] builds it and [nextSample] keeps it: five
    white values, each between -1 and 1, and a key between 0 and
    [maxKey = 31]. *)
Definition wellFormed (pn : PinkNoise.t) : Prop :=
  PinkNoise.maxKey pn = 31%Z
  /\ (0 <= PinkNoise.key pn <= 31)%Z
  /\ length (PinkNoise.white pn) = 5%nat
  /\ Forall (fun w => -1 <= w <= 1) (PinkNoise.white pn).

(** A random source whose draws lie in the unit interval, as those of
    [Float64] do. *)
Definition unitDraws (r : PinkNoise.Rand) : Prop :=
  forall d, 0 <= PinkNoise.draws r d <= 1.

(** [m] is the largest element of [l]. *)
Definition isMaximum (m : R) (l : list R) : Prop :=
  In m l /\ Forall (fun x => x <= m) l.

(** The state of a streamer after [n] samples, for a body whose effect on the
    state is [next]. *)
Definition after {S : Type} (next : S -> S) (n : nat) (s : S) : S :=
  Nat.iter n next s.

(** The effect of the body of [VariableTone.Stream] on the oscillator and on
    a frame, for frequency and volume functions that return [freqAt t] and
    [volAt t]. *)
Definition toneNext (freqAt : R -> R) (vt : VariableTone.t) : VariableTone.t :=
  let t := IZR (VariableTone.pos vt) / IZR (VariableTone.sr vt) in
  {| VariableTone.sr := VariableTone.sr vt;
     VariableTone.pos := wrapInt (VariableTone.pos vt + 1);
     VariableTone.phase :=
       VariableTone.phase vt + 2 * PI * freqAt t / IZR (VariableTone.sr vt);
     VariableTone.freqFunc := VariableTone.freqFunc vt;
     VariableTone.volumeFunc := VariableTone.volumeFunc vt;
     VariableTone.channel := VariableTone.channel vt |}.

Definition toneEmit (freqAt volAt : R -> R) (vt : VariableTone.t) (fr : Frame)
  : Frame :=
  let t := IZR (VariableTone.pos vt) / IZR (VariableTone.sr vt) in
  let s := sin (VariableTone.phase (toneNext freqAt vt)) * volAt t * 0.5 in
  if (VariableTone.channel vt =? 0)%Z
  then (fst fr + s, snd fr)
  else (fst fr, snd fr + s).

(** What holds of an oscillator [vt] that has produced [j] samples since it
    was [vt0]. *)
Definition toneInv (freqAt : R -> R) (vt0 : VariableTone.t) (j : nat)
           (vt : VariableTone.t) : Prop :=
  VariableTone.sr vt = VariableTone.sr vt0
  /\ VariableTone.pos vt = (VariableTone.pos vt0 + Z.of_nat j)%Z
  /\ VariableTone.phase vt
     = phaseAfter freqAt (VariableTone.sr vt0) (VariableTone.pos vt0)
                  (VariableTone.phase vt0) j
  /\ VariableTone.freqFunc vt = VariableTone.freqFunc vt0
  /\ VariableTone.volumeFunc vt = VariableTone.volumeFunc vt0
  /\ VariableTone.channel vt = VariableTone.channel vt0.

(** The same for the body of [PinkNoiseControl.Stream]. *)
Definition gateNext {S : Type} (pnc : PinkNoiseControl.t S)
  : PinkNoiseControl.t S :=
  {| PinkNoiseControl.stream := PinkNoiseControl.stream pnc;
     PinkNoiseControl.volumeFunc := PinkNoiseControl.volumeFunc pnc;
     PinkNoiseControl.sr := PinkNoiseControl.sr pnc;
     PinkNoiseControl.pos := wrapInt (PinkNoiseControl.pos pnc + 1) |}.

Definition gateEmit {S : Type} (onAt : R -> bool) (volAt : R -> R)
           (pnc : PinkNoiseControl.t S) (fr : Frame) : Frame :=
  let t := IZR (PinkNoiseControl.pos pnc) / IZR (PinkNoiseControl.sr pnc) in
  if negb (onAt t) then (0, 0)
  else (fst fr * volAt t * 0.5, fst fr * volAt t * 0.5).

End Signal.

(** ** Concrete schedules *)

Module Scenarios.

Import Player.

(** A tone at a quarter of the sample rate and full volume, for ten
    seconds. *)
Definition quarterRate : list ConfigFrequencyChange :=
  [mkChange 0 11025 0 false 0 1; mkChange 10 11025 0 false 0 1].

(** Noise on at volume 1 for ten seconds. *)
Definition noisy : list ConfigFrequencyChange :=
  [mkChange 0 300 10 true 1 0.1; mkChange 10 150 6 true 1 0.15].

(** A random source whose every draw is 1/2, so that every white value it
    refreshes becomes 0. *)
Definition halfSource : PinkNoise.Rand :=
  PinkNoise.mkRand (fun _ => 0.5) 0.

(** The end-to-end scenario of the specification. *)
Definition scenario : list ConfigFrequencyChange :=
  [mkChange 0 300 10 true 0.4 0.1; mkChange 10 150 6 false 0 0.15].

(** Two breakpoints at time 0, with frequencies 1 and 2. *)
Definition tiedPair : list ConfigFrequencyChange :=
  [mkChange 0 1 0 false 0 0; mkChange 0 2 0 false 0 0].

(** Two breakpoints at time 0 followed by one at time 10; the fields of the
    three breakpoints are pairwise different. *)
Definition tiedStart : list ConfigFrequencyChange :=
  [mkChange 0 1 4 false 0.1 0.2; mkChange 0 2 5 true 0.3 0.4;
   mkChange 10 3 6 false 0.5 0.6].

(** A tie in the middle: breakpoints at times 0, 5, 5 and 10. *)
Definition tiedMiddle : list ConfigFrequencyChange :=
  [mkChange 0 100 1 false 0 0.1; mkChange 5 200 2 true 0.2 0.2;
   mkChange 5 400 4 false 0.4 0.4; mkChange 10 800 8 true 0.8 0.8].

(** A one-line Sbagen session: the tone set [ts] with pink noise at 40%,
    started [NOW].  [sbagenRegex] is the match of the time-sequence
    expression on that line. *)
Definition sbagenToneSets (name : string) : option Converter.ToneSet :=
  if String.eqb name "ts"
  then Some (Converter.mkToneSet "ts" 300 10 0.4 0.6)
  else None.

Definition sbagenRegex (line : string) : option (string * string) :=
  if String.eqb line "NOW ts" then Some ("NOW"%string, "ts"%string) else None.

Definition sbagenSequence : list string := ["NOW ts"%string].

(** A buffer of two frames that are not silent. *)
Definition twoFrames : list Frame := [(0.25, 0.25); (0.5, 0.5)].





End Scenarios.

(** ** Reading the converter's results *)

Module Sessions.

Import Converter.

(** A time-sequence line and the record made from it: the line matches, its
    tone set is defined, and the record carries that tone set's four
    values. *)
Definition recordOf (timeSeqRegex : string -> option (string * string))
           (toneSets : string -> option ToneSet)
           (line : string) (fc : FrequencyChange) : Prop :=
  exists timeSpec name toneSet,
    timeSeqRegex line = Some (timeSpec, name)
    /\ toneSets name = Some toneSet
    /\ Frequency fc = TsFrequency toneSet
    /\ BeatFrequency fc = TsBeatFrequency toneSet
    /\ PinkNoiseVolume fc = TsPinkNoiseVolume toneSet
    /\ ToneVolume fc = TsToneVolume toneSet.



(** A small session file and the library functions on the strings that
    occur in it. *)
Definition demoLines : list string :=
  ["# demo"; "ts: 300+10/60 mix/100 pink/40"; ""; "NOW ts"; "+00:10 ts";
   "+00:20 ts"]%string.

Definition demoTrimSpace (s : string) : string := s.

Definition demoToneSetRegex (line : string) : option (string * string) :=
  if String.eqb line "ts: 300+10/60 mix/100 pink/40"
  then Some ("ts", "300+10/60 mix/100 pink/40")%string
  else None.

Definition demoFields (specs : string) : list string :=
  if String.eqb specs "300+10/60 mix/100 pink/40"
  then ["300+10/60"; "mix/100"; "pink/40"]%string
  else [].

(** [strings.Fields] on two more definitions: [demoLines]' one without its
    [mix/100] part, and a dash followed by a [mix/100] part. *)
Definition demoFieldsMore (specs : string) : list string :=
  if String.eqb specs "300+10/60 pink/40"
  then ["300+10/60"; "pink/40"]%string
  else if String.eqb specs "- mix/100" then ["-"; "mix/100"]%string
  else demoFields specs.

Definition demoToneRegex (part : string) : option (string * string * string) :=
  if String.eqb part "300+10/60" then Some ("300", "10", "60")%string else None.

Definition demoParseFloat (s : string) : option R :=
  if String.eqb s "300" then Some 300
  else if String.eqb s "10" then Some 10
  else if String.eqb s "60" then Some 60
  else if String.eqb s "40" then Some 40
  else None.

Definition demoTimeSeqRegex (line : string) : option (string * string) :=
  if String.eqb line "NOW ts" then Some ("NOW", "ts")%string
  else if String.eqb line "+00:10 ts" then Some ("+00:10", "ts")%string
  else if String.eqb line "+00:20 ts" then Some ("+00:20", "ts")%string
  else None.

Definition demoSplitColon (s : string) : list string :=
  if String.eqb s "00:10" then ["00"; "10"]%string
  else if String.eqb s "00:20" then ["00"; "20"]%string
  else if String.eqb s "01:90:-5" then ["01"; "90"; "-5"]%string
  else [s].

Definition demoAtoi (s : string) : option Z :=
  if String.eqb s "00" then Some 0%Z
  else if String.eqb s "01" then Some 1%Z
  else if String.eqb s "10" then Some 10%Z
  else if String.eqb s "20" then Some 20%Z
  else if String.eqb s "90" then Some 90%Z
  else if String.eqb s "-5" then Some (-5)%Z
  else None.

Definition demoToneSet : ToneSet := mkToneSet "ts" 300 10 (40 / 100) (0 + 60 / 100).

Definition demoSequence : list string :=
  ["NOW ts"; "+00:10 ts"; "+00:20 ts"]%string.

(** The records of [demoSequence]: both relative times count from [NOW]. *)
Definition demoRecords : list FrequencyChange :=
  [mkFrequencyChange 0 300 10 (40 / 100) (0 + 60 / 100);
   mkFrequencyChange (0 + 600) 300 10 (40 / 100) (0 + 60 / 100);
   mkFrequencyChange (0 + 1200) 300 10 (40 / 100) (0 + 60 / 100)].

End Sessions.

(** ** Facts about the run-time model *)

Module GoFacts.

Lemma fle_true (x y : R) : x <= y -> fle x y = true.
Proof. intros H. unfold fle. destruct (Rle_dec x y); [reflexivity | contradiction]. Qed.

Lemma fle_false (x y : R) : y < x -> fle x y = false.
Proof. intros H. unfold fle. destruct (Rle_dec x y); [lra | reflexivity]. Qed.

Lemma flt_true (x y : R) : x < y -> flt x y = true.
Proof. intros H. unfold flt. destruct (Rlt_dec x y); [reflexivity | contradiction]. Qed.

Lemma flt_false (x y : R) : y <= x -> flt x y = false.
Proof. intros H. unfold flt. destruct (Rlt_dec x y); [lra | reflexivity]. Qed.

Lemma fge_true (x y : R) : y <= x -> fge x y = true.
Proof. intros H. unfold fge. destruct (Rge_dec x y); [reflexivity | lra]. Qed.

Lemma fge_false (x y : R) : x < y -> fge x y = false.
Proof. intros H. unfold fge. destruct (Rge_dec x y); [lra | reflexivity]. Qed.

Lemma fgt_true (x y : R) : y < x -> fgt x y = true.
Proof. intros H. unfold fgt. destruct (Rgt_dec x y); [reflexivity | lra]. Qed.

Lemma fgt_false (x y : R) : x <= y -> fgt x y = false.
Proof. intros H. unfold fgt. destruct (Rgt_dec x y); [lra | reflexivity]. Qed.

Lemma feq_true (x y : R) : x = y -> feq x y = true.
Proof. intros H. unfold feq. destruct (Req_dec_T x y); [reflexivity | contradiction]. Qed.

Lemma feq_false (x y : R) : x <> y -> feq x y = false.
Proof. intros H. unfold feq. destruct (Req_dec_T x y); [contradiction | reflexivity]. Qed.

Lemma flt_spec (x y : R) : flt x y = true <-> x < y.
Proof. unfold flt. destruct (Rlt_dec x y); split; intros; try easy. Qed.

Lemma fge_spec (x y : R) : fge x y = true <-> y <= x.
Proof. unfold fge. destruct (Rge_dec x y); split; intros; try easy; lra. Qed.

Lemma fdiv_ok (x y : R) : y <> 0 -> fdiv x y = Ok (x / y).
Proof. intros H. unfold fdiv. destruct (Req_dec_T y 0); [contradiction | reflexivity]. Qed.

Lemma index_nth {A : Type} (l : list A) (i : nat) (d : A) :
  (i < length l)%nat -> index l i = Ok (nth i l d).
Proof.
  intros H. unfold index.
  rewrite (nth_error_nth' l d H). reflexivity.
Qed.

Lemma wrapInt_id (z : Z) :
  (- 2 ^ 63 <= z <= maxInt)%Z -> wrapInt z = z.
Proof.
  unfold wrapInt, maxInt. intros H.
  rewrite Z.mod_small; lia.
Qed.

End GoFacts.

Import GoFacts.

(** ** Facts about the shared search *)

Module ScheduleFacts.

Import Player.

Import Shape.

Section Scan.

Context {A : Type}.
Variable empty : A.
Variable at_ : ConfigFrequencyChange -> A.
Variable hit : ConfigFrequencyChange -> ConfigFrequencyChange -> R -> result A.

Local Abbreviation scanLoop := (Shape.scanLoop at_ hit).
Local Abbreviation scan := (Shape.scan empty at_ hit).

Lemma scanLoop_step (changes : list ConfigFrequencyChange) (t : R) (n i : nat) :
  (i + 1 < length changes)%nat ->
  scanLoop changes t (S n) i =
    if (t >=? timeAt changes i) && (t <? timeAt changes (i + 1))
    then hit (changeAt changes i) (changeAt changes (i + 1)) t
    else scanLoop changes t n (S i).
Proof.
  intros Hi. cbn [scanLoop].
  rewrite (index_nth changes i zeroChange) by lia.
  rewrite (index_nth changes (i + 1) zeroChange) by lia.
  unfold timeAt, changeAt. cbn [bind ret].
  destruct (t >=? Time (nth i changes zeroChange)); cbn [bind ret andb].
  - destruct (t <? Time (nth (i + 1) changes zeroChange)); reflexivity.
  - reflexivity.
Qed.

Lemma scanLoop_end (changes : list ConfigFrequencyChange) (t : R) (i : nat) :
  changes <> [] ->
  scanLoop changes t 0 i = Ok (at_ (changeAt changes (length changes - 1))).
Proof.
  intros Hne. cbn [scanLoop].
  rewrite (index_nth changes _ zeroChange).
  - reflexivity.
  - destruct changes; [contradiction | cbn; lia].
Qed.

(** The loop returns the interval it meets first. *)
Lemma scanLoop_hit (changes : list ConfigFrequencyChange) (t : R) :
  forall (k i0 n : nat),
    (i0 + k + 1 < length changes)%nat ->
    (k < n)%nat ->
    (forall j, (i0 <= j < i0 + k)%nat ->
               ~ (timeAt changes j <= t < timeAt changes (j + 1))) ->
    timeAt changes (i0 + k) <= t < timeAt changes (i0 + k + 1) ->
    scanLoop changes t n i0 =
      hit (changeAt changes (i0 + k)) (changeAt changes (i0 + k + 1)) t.
Proof.
  induction k as [| k IH]; intros i0 n Hlen Hn Hmiss Hin.
  - destruct n as [| n]; [lia |].
    rewrite scanLoop_step by lia.
    replace (i0 + 0)%nat with i0 in * by lia.
    rewrite fge_true, flt_true by lra. reflexivity.
  - destruct n as [| n]; [lia |].
    rewrite scanLoop_step by lia.
    assert (Hm : ~ (timeAt changes i0 <= t < timeAt changes (i0 + 1)))
      by (apply Hmiss; lia).
    assert (Hc : (t >=? timeAt changes i0) && (t <? timeAt changes (i0 + 1)) = false).
    { apply andb_false_iff.
      destruct (Rle_dec (timeAt changes i0) t) as [Hle | Hnle].
      - right. apply flt_false. lra.
      - left. apply fge_false. lra. }
    rewrite Hc.
    replace (i0 + S k)%nat with (S i0 + k)%nat in * by lia.
    apply IH; try lia; try assumption.
    intros j Hj. apply Hmiss. lia.
Qed.

(** The loop has a value as soon as the interpolation has one on every
    interval that contains the query time. *)
Lemma scanLoop_total (changes : list ConfigFrequencyChange) (t : R) :
  (forall ci cj, Time ci <= t < Time cj -> exists a, hit ci cj t = Ok a) ->
  forall (n i0 : nat),
    (i0 + n < length changes)%nat ->
    exists a, scanLoop changes t n i0 = Ok a.
Proof.
  intros Hhit. induction n as [| n IH]; intros i0 Hlen.
  - eexists. apply scanLoop_end.
    destruct changes; [cbn in Hlen; lia | discriminate].
  - rewrite scanLoop_step by lia.
    destruct (t >=? timeAt changes i0) eqn:Hge; cbn [andb].
    + destruct (t <? timeAt changes (i0 + 1)) eqn:Hlt.
      * apply Hhit. apply fge_spec in Hge. apply flt_spec in Hlt.
        unfold timeAt in *. lra.
      * apply IH. lia.
    + apply IH. lia.
Qed.

Lemma scan_empty (t : R) : scan [] t = Ok empty.
Proof. reflexivity. Qed.

Lemma scan_unfold (changes : list ConfigFrequencyChange) (t : R) :
  changes <> [] ->
  scan changes t =
    if t <=? timeAt changes 0 then Ok (at_ (changeAt changes 0))
    else if t >=? timeAt changes (length changes - 1)
         then Ok (at_ (changeAt changes (length changes - 1)))
         else scanLoop changes t (length changes - 1) 0.
Proof.
  intros Hne. unfold scan.
  destruct changes as [| c cs]; [contradiction |].
  cbn [length Nat.eqb].
  rewrite (index_nth (c :: cs) 0 zeroChange) by (cbn; lia).
  rewrite (index_nth (c :: cs) (S (length cs) - 1) zeroChange) by (cbn; lia).
  cbn [bind ret]. unfold timeAt, changeAt. cbn [length].
  destruct (t <=? Time (nth 0 (c :: cs) zeroChange)); [reflexivity |].
  destruct (t >=? Time (nth (S (length cs) - 1) (c :: cs) zeroChange)); reflexivity.
Qed.

Lemma scan_total (changes : list ConfigFrequencyChange) (t : R) :
  (forall ci cj, Time ci <= t < Time cj -> exists a, hit ci cj t = Ok a) ->
  exists a, scan changes t = Ok a.
Proof.
  intros Hhit. destruct changes as [| c cs].
  - eexists. apply scan_empty.
  - rewrite scan_unfold by discriminate.
    destruct (t <=? _); [eexists; reflexivity |].
    destruct (t >=? _); [eexists; reflexivity |].
    apply scanLoop_total; [assumption | cbn; lia].
Qed.

Lemma scan_low (changes : list ConfigFrequencyChange) (t : R) :
  changes <> [] -> t <= timeAt changes 0 ->
  scan changes t = Ok (at_ (changeAt changes 0)).
Proof.
  intros Hne Ht. rewrite scan_unfold by assumption.
  rewrite fle_true by assumption. reflexivity.
Qed.

Lemma scan_high (changes : list ConfigFrequencyChange) (t : R) :
  changes <> [] -> timeAt changes 0 < t ->
  timeAt changes (length changes - 1) <= t ->
  scan changes t = Ok (at_ (changeAt changes (length changes - 1))).
Proof.
  intros Hne Hlo Hhi. rewrite scan_unfold by assumption.
  rewrite fle_false by assumption. rewrite fge_true by assumption.
  reflexivity.
Qed.

Lemma scan_hit (changes : list ConfigFrequencyChange) (t : R) (i : nat) :
  (i + 1 < length changes)%nat ->
  timeAt changes 0 < t ->
  t < timeAt changes (length changes - 1) ->
  (forall j, (j < i)%nat ->
             ~ (timeAt changes j <= t < timeAt changes (j + 1))) ->
  timeAt changes i <= t < timeAt changes (i + 1) ->
  scan changes t = hit (changeAt changes i) (changeAt changes (i + 1)) t.
Proof.
  intros Hi Hlo Hhi Hmiss Hin.
  rewrite scan_unfold by (destruct changes; [cbn in Hi; lia | discriminate]).
  rewrite fle_false by assumption. rewrite fge_false by assumption.
  apply (scanLoop_hit changes t i 0); try lia; try assumption.
  intros j Hj. apply Hmiss. lia.
Qed.

End Scan.

(** Inequalities between the times of a concrete slice. *)
Ltac breakpoint_times := unfold timeAt, changeAt; cbn; lra.

(** Each query function of [main.go] is an instance of the search. *)

Lemma createFreqFunc_scan (changes : list ConfigFrequencyChange) (t : R) :
  createFreqFunc changes t = scan 0 Frequency (lerp Frequency) changes t.
Proof.
  assert (L : forall n i, freqLoop changes t n i
                          = scanLoop Frequency (lerp Frequency) changes t n i).
  { induction n as [| n IH]; intros i; cbn [freqLoop scanLoop]; [reflexivity |].
    destruct (changes !? i); cbn [bind]; [| reflexivity].
    match goal with |- bind ?c _ = _ => destruct c as [[|] |] end;
      cbn [bind]; [reflexivity | apply IH | reflexivity]. }
  unfold createFreqFunc, scan. rewrite L. reflexivity.
Qed.

Lemma createBeatFreqFunc_scan (changes : list ConfigFrequencyChange) (t : R) :
  createBeatFreqFunc changes t
  = scan 0 BeatFrequency (lerp BeatFrequency) changes t.
Proof.
  assert (L : forall n i, beatFreqLoop changes t n i
                          = scanLoop BeatFrequency (lerp BeatFrequency) changes t n i).
  { induction n as [| n IH]; intros i; cbn [beatFreqLoop scanLoop]; [reflexivity |].
    destruct (changes !? i); cbn [bind]; [| reflexivity].
    match goal with |- bind ?c _ = _ => destruct c as [[|] |] end;
      cbn [bind]; [reflexivity | apply IH | reflexivity]. }
  unfold createBeatFreqFunc, scan. rewrite L. reflexivity.
Qed.

Lemma createVolumeFunc_scan (changes : list ConfigFrequencyChange) (t : R) :
  createVolumeFunc changes t = scan 1 ToneVolume (lerp ToneVolume) changes t.
Proof.
  assert (L : forall n i, volumeLoop changes t n i
                          = scanLoop ToneVolume (lerp ToneVolume) changes t n i).
  { induction n as [| n IH]; intros i; cbn [volumeLoop scanLoop]; [reflexivity |].
    destruct (changes !? i); cbn [bind]; [| reflexivity].
    match goal with |- bind ?c _ = _ => destruct c as [[|] |] end;
      cbn [bind]; [reflexivity | apply IH | reflexivity]. }
  unfold createVolumeFunc, scan. rewrite L. reflexivity.
Qed.

Lemma createPinkNoiseFunc_scan (changes : list ConfigFrequencyChange) (t : R) :
  createPinkNoiseFunc changes t = scan (false, 0) noiseOf step changes t.
Proof.
  assert (L : forall n i, pinkNoiseLoop changes t n i
                          = scanLoop noiseOf step changes t n i).
  { induction n as [| n IH]; intros i; cbn [pinkNoiseLoop scanLoop]; [reflexivity |].
    destruct (changes !? i) as [ci |] eqn:Ei; cbn [bind]; [| reflexivity].
    destruct (t >=? Time ci); cbn [bind ret].
    - destruct (changes !? (i + 1)); cbn [bind ret]; [| reflexivity].
      destruct (t <? Time a); [reflexivity | apply IH].
    - apply IH. }
  unfold createPinkNoiseFunc, scan. rewrite L. reflexivity.
Qed.

Lemma lerp_ok (field : ConfigFrequencyChange -> R)
      (ci cj : ConfigFrequencyChange) (t : R) :
  Time ci < Time cj ->
  lerp field ci cj t
  = Ok (field ci + (field cj - field ci) * (t - Time ci) / (Time cj - Time ci)).
Proof.
  intros H. unfold lerp. rewrite fdiv_ok by lra. reflexivity.
Qed.

Lemma lerp_total (field : ConfigFrequencyChange -> R) (t : R)
      (ci cj : ConfigFrequencyChange) :
  Time ci <= t < Time cj -> exists a, lerp field ci cj t = Ok a.
Proof.
  intros H. eexists. apply lerp_ok. lra.
Qed.

Lemma step_total (t : R) (ci cj : ConfigFrequencyChange) :
  Time ci <= t < Time cj -> exists a, step ci cj t = Ok a.
Proof. intros _. eexists. reflexivity. Qed.

Lemma nonDecreasing_le (changes : list ConfigFrequencyChange) :
  nonDecreasing changes ->
  forall i j, (i <= j)%nat -> (j < length changes)%nat ->
              timeAt changes i <= timeAt changes j.
Proof.
  intros Hs i j Hij. induction Hij as [| j Hij IH]; intros Hj.
  - lra.
  - specialize (Hs j). replace (j + 1)%nat with (S j) in Hs by lia.
    specialize (Hs Hj). assert (timeAt changes i <= timeAt changes j) by (apply IH; lia).
    lra.
Qed.

Lemma strictlyIncreasing_nonDecreasing (changes : list ConfigFrequencyChange) :
  strictlyIncreasing changes -> nonDecreasing changes.
Proof. intros Hs i Hi. apply Rlt_le. apply Hs. exact Hi. Qed.

Lemma strictlyIncreasing_lt (changes : list ConfigFrequencyChange) :
  strictlyIncreasing changes ->
  forall i j, (i < j)%nat -> (j < length changes)%nat ->
              timeAt changes i < timeAt changes j.
Proof.
  intros Hs i j Hij Hj.
  assert (H1 : timeAt changes i < timeAt changes (i + 1)) by (apply Hs; lia).
  assert (H2 : timeAt changes (i + 1) <= timeAt changes j).
  { apply nonDecreasing_le; [apply strictlyIncreasing_nonDecreasing; exact Hs | lia | lia]. }
  lra.
Qed.

(** On a slice whose times do not decrease, the search answers with the
    interval that starts at [i] for every time in [[time_i, time_{i+1})]
    above the first breakpoint's time. *)
Lemma scan_interval {A : Type} (empty : A)
      (at_ : ConfigFrequencyChange -> A)
      (hit : ConfigFrequencyChange -> ConfigFrequencyChange -> R -> result A)
      (changes : list ConfigFrequencyChange) (i : nat) (t : R) :
  nonDecreasing changes ->
  (i + 1 < length changes)%nat ->
  timeAt changes 0 < t ->
  timeAt changes i <= t < timeAt changes (i + 1) ->
  scan empty at_ hit changes t
  = hit (changeAt changes i) (changeAt changes (i + 1)) t.
Proof.
  intros Hs Hi Hlo Hin.
  apply scan_hit; try assumption.
  - assert (timeAt changes (i + 1) <= timeAt changes (length changes - 1))
      by (apply nonDecreasing_le; [assumption | lia | lia]).
    lra.
  - intros j Hj [_ Hlt].
    assert (timeAt changes (j + 1) <= timeAt changes i)
      by (apply nonDecreasing_le; [assumption | lia | lia]).
    lra.
Qed.

(** What an evaluation of the search can be: a clamp to an end of the
    slice, or the interpolation on an interval that contains [t]. *)
Lemma scanLoop_cases {A : Type}
      (at_ : ConfigFrequencyChange -> A)
      (hit : ConfigFrequencyChange -> ConfigFrequencyChange -> R -> result A)
      (changes : list ConfigFrequencyChange) (t : R) :
  forall n i0, (i0 + n < length changes)%nat ->
    scanLoop at_ hit changes t n i0
      = Ok (at_ (changeAt changes (length changes - 1)))
    \/ exists i, (i + 1 < length changes)%nat
                 /\ timeAt changes i <= t < timeAt changes (i + 1)
                 /\ scanLoop at_ hit changes t n i0
                    = hit (changeAt changes i) (changeAt changes (i + 1)) t.
Proof.
  induction n as [| n IH]; intros i0 Hlen.
  - left. apply scanLoop_end. destruct changes; [cbn in Hlen; lia | discriminate].
  - rewrite scanLoop_step by lia.
    destruct (t >=? timeAt changes i0) eqn:Hge; cbn [andb].
    + destruct (t <? timeAt changes (i0 + 1)) eqn:Hlt.
      * right. exists i0. apply fge_spec in Hge. apply flt_spec in Hlt.
        repeat split; try lia; try lra.
      * apply IH. lia.
    + apply IH. lia.
Qed.

Lemma scan_cases {A : Type} (empty : A)
      (at_ : ConfigFrequencyChange -> A)
      (hit : ConfigFrequencyChange -> ConfigFrequencyChange -> R -> result A)
      (changes : list ConfigFrequencyChange) (t : R) :
  changes <> [] ->
  scan empty at_ hit changes t = Ok (at_ (changeAt changes 0))
  \/ scan empty at_ hit changes t
     = Ok (at_ (changeAt changes (length changes - 1)))
  \/ exists i, (i + 1 < length changes)%nat
               /\ timeAt changes i <= t < timeAt changes (i + 1)
               /\ scan empty at_ hit changes t
                  = hit (changeAt changes i) (changeAt changes (i + 1)) t.
Proof.
  intros Hne. rewrite scan_unfold by assumption.
  destruct (t <=? _); [left; reflexivity |].
  destruct (t >=? _); [right; left; reflexivity |].
  right. apply scanLoop_cases.
  destruct changes; [contradiction | cbn; lia].
Qed.

End ScheduleFacts.

(** ** The schedule: interpolation, clamping and ties *)

Module ScheduleSpec.

Import Player Shape ScheduleFacts Scenarios.

(** All three linear query functions at once, as instances of the search. *)
Lemma linear_interval (changes : list ConfigFrequencyChange) (i : nat) (t : R) :
  nonDecreasing changes ->
  (i + 1 < length changes)%nat ->
  timeAt changes 0 < t ->
  timeAt changes i <= t < timeAt changes (i + 1) ->
  createFreqFunc changes t = Ok (linearValue Frequency changes i t)
  /\ createBeatFreqFunc changes t = Ok (linearValue BeatFrequency changes i t)
  /\ createVolumeFunc changes t = Ok (linearValue ToneVolume changes i t).
Proof.
  intros Hs Hi Hlo Hin.
  rewrite createFreqFunc_scan, createBeatFreqFunc_scan, createVolumeFunc_scan.
  rewrite !(scan_interval _ _ _ changes i t) by assumption.
  unfold linearValue, timeAt in *.
  rewrite !lerp_ok by lra. repeat split; reflexivity.
Qed.

(** C2. On a breakpoint sequence with strictly increasing times, for every
    [t] strictly between [time_i] and [time_{i+1}] the functions
    [frequency], [beatFrequency] and [toneVolume] return exactly
    [v_i + (v_{i+1} - v_i) * (t - time_i) / (time_{i+1} - time_i)] for
    their field; and a schedule with breakpoints at time 0 (frequency 100)
    and time 10 (frequency 200) has [frequency(5) = 150]. *)
Theorem interior_linear_interpolation :
  (forall (changes : list ConfigFrequencyChange) (i : nat) (t : R),
      changes <> [] ->
      strictlyIncreasing changes ->
      (i + 1 < length changes)%nat ->
      timeAt changes i < t < timeAt changes (i + 1) ->
      createFreqFunc changes t = Ok (linearValue Frequency changes i t)
      /\ createBeatFreqFunc changes t
         = Ok (linearValue BeatFrequency changes i t)
      /\ createVolumeFunc changes t = Ok (linearValue ToneVolume changes i t))
  /\ (forall (bf0 nv0 tv0 bf1 nv1 tv1 : R) (on0 on1 : bool),
         createFreqFunc [mkChange 0 100 bf0 on0 nv0 tv0;
                         mkChange 10 200 bf1 on1 nv1 tv1] 5
         = Ok 150).
Proof.
  assert (G : forall changes i t,
             strictlyIncreasing changes ->
             (i + 1 < length changes)%nat ->
             timeAt changes i < t < timeAt changes (i + 1) ->
             createFreqFunc changes t = Ok (linearValue Frequency changes i t)
             /\ createBeatFreqFunc changes t
                = Ok (linearValue BeatFrequency changes i t)
             /\ createVolumeFunc changes t
                = Ok (linearValue ToneVolume changes i t)).
  { intros changes i t Hs Hi Hin.
    apply linear_interval.
    - apply strictlyIncreasing_nonDecreasing. exact Hs.
    - exact Hi.
    - assert (timeAt changes 0 <= timeAt changes i).
      { apply nonDecreasing_le;
          [apply strictlyIncreasing_nonDecreasing; exact Hs | lia | lia]. }
      lra.
    - lra. }
  split.
  - intros changes i t _ Hs Hi Hin. apply G; assumption.
  - intros bf0 nv0 tv0 bf1 nv1 tv1 on0 on1.
    destruct (G [mkChange 0 100 bf0 on0 nv0 tv0; mkChange 10 200 bf1 on1 nv1 tv1]
                0%nat 5) as [Hf _].
    + intros j Hj. cbn in Hj. assert (j = 0)%nat by lia. subst j.
      breakpoint_times.
    + cbn. lia.
    + breakpoint_times.
    + rewrite Hf. f_equal. unfold linearValue, timeAt, changeAt. cbn. lra.
Qed.

(** The end-to-end scenario of the specification: at [t = 5] the base
    frequency is 225, the beat frequency 8 and the tone volume 0.125. *)
Lemma interior_linear_interpolation_witness :
  let changes := scenario in
  changes <> []
  /\ strictlyIncreasing changes
  /\ (0 + 1 < length changes)%nat
  /\ timeAt changes 0 < 5 < timeAt changes (0 + 1)
  /\ createFreqFunc changes 5 = Ok (linearValue Frequency changes 0 5)
  /\ createBeatFreqFunc changes 5 = Ok (linearValue BeatFrequency changes 0 5)
  /\ createVolumeFunc changes 5 = Ok (linearValue ToneVolume changes 0 5).
Proof.
  intros changes.
  assert (Hne : changes <> []) by discriminate.
  assert (Hs : strictlyIncreasing changes).
  { intros j Hj. cbn in Hj. assert (j = 0)%nat by lia. subst j.
    breakpoint_times. }
  assert (Hi : (0 + 1 < length changes)%nat) by (cbn; lia).
  assert (Hin : timeAt changes 0 < 5 < timeAt changes (0 + 1))
    by (breakpoint_times).
  repeat split; try assumption; try apply Hin;
    apply (proj1 interior_linear_interpolation changes 0%nat 5 Hne Hs Hi Hin).
Defined.

(** The four query functions always return a value: no index leaves the
    slice and no interpolation divides by zero. *)
Lemma queries_total (changes : list ConfigFrequencyChange) (t : R) :
  (exists f, createFreqFunc changes t = Ok f)
  /\ (exists bf, createBeatFreqFunc changes t = Ok bf)
  /\ (exists v, createVolumeFunc changes t = Ok v)
  /\ (exists nz, createPinkNoiseFunc changes t = Ok nz).
Proof.
  rewrite createFreqFunc_scan, createBeatFreqFunc_scan, createVolumeFunc_scan,
    createPinkNoiseFunc_scan.
  repeat split; apply scan_total; intros ci cj H;
    first [apply lerp_total; exact H | apply (step_total t); exact H].
Qed.

Lemma clamp_low (changes : list ConfigFrequencyChange) (t : R) :
  changes <> [] -> t <= timeAt changes 0 ->
  createFreqFunc changes t = Ok (Frequency (changeAt changes 0))
  /\ createBeatFreqFunc changes t = Ok (BeatFrequency (changeAt changes 0))
  /\ createVolumeFunc changes t = Ok (ToneVolume (changeAt changes 0))
  /\ createPinkNoiseFunc changes t
     = Ok (PinkNoiseOn (changeAt changes 0), PinkNoiseVolume (changeAt changes 0)).
Proof.
  intros Hne Ht.
  rewrite createFreqFunc_scan, createBeatFreqFunc_scan, createVolumeFunc_scan,
    createPinkNoiseFunc_scan.
  rewrite !scan_low by assumption. repeat split; reflexivity.
Qed.

Lemma clamp_high (changes : list ConfigFrequencyChange) (t : R) :
  changes <> [] -> timeAt changes 0 < t ->
  timeAt changes (length changes - 1) <= t ->
  createFreqFunc changes t
  = Ok (Frequency (changeAt changes (length changes - 1)))
  /\ createBeatFreqFunc changes t
     = Ok (BeatFrequency (changeAt changes (length changes - 1)))
  /\ createVolumeFunc changes t
     = Ok (ToneVolume (changeAt changes (length changes - 1)))
  /\ createPinkNoiseFunc changes t
     = Ok (PinkNoiseOn (changeAt changes (length changes - 1)),
           PinkNoiseVolume (changeAt changes (length changes - 1))).
Proof.
  intros Hne Hlo Hhi.
  rewrite createFreqFunc_scan, createBeatFreqFunc_scan, createVolumeFunc_scan,
    createPinkNoiseFunc_scan.
  rewrite !scan_high by assumption. repeat split; reflexivity.
Qed.

(** C3, as stated, fails: [t = 0] is at or above the last breakpoint's time
    of [tiedPair], yet [frequency(0)] is the first breakpoint's frequency 1,
    not the last breakpoint's frequency 2. *)
Lemma clamp_high_fails_on_tie :
  tiedPair <> []
  /\ timeAt tiedPair (length tiedPair - 1) <= 0
  /\ createFreqFunc tiedPair 0 = Ok 1
  /\ createFreqFunc tiedPair 0
     <> Ok (Frequency (changeAt tiedPair (length tiedPair - 1))).
Proof.
  assert (E : createFreqFunc tiedPair 0 = Ok 1).
  { destruct (clamp_low tiedPair 0) as [Hf _].
    - discriminate.
    - breakpoint_times.
    - exact Hf. }
  split; [discriminate |]. split; [breakpoint_times |].
  split; [exact E |].
  rewrite E. unfold changeAt. cbn. intros H. injection H as H. lra.
Qed.

(** C3 (amended). For every non-empty breakpoint sequence and every real
    [t]: the four query functions return a value (they never fail); if [t]
    is at or below the first breakpoint's time, [frequency], [beatFrequency]
    and [toneVolume] return the first breakpoint's field; if [t] is at or
    above the last breakpoint's time and strictly above the first
    breakpoint's time, they return the last breakpoint's field. *)
Theorem clamping_outside_range
        (changes : list ConfigFrequencyChange) (t : R) :
  changes <> [] ->
  ((exists f, createFreqFunc changes t = Ok f)
   /\ (exists bf, createBeatFreqFunc changes t = Ok bf)
   /\ (exists v, createVolumeFunc changes t = Ok v)
   /\ (exists nz, createPinkNoiseFunc changes t = Ok nz))
  /\ (t <= timeAt changes 0 ->
      createFreqFunc changes t = Ok (Frequency (changeAt changes 0))
      /\ createBeatFreqFunc changes t = Ok (BeatFrequency (changeAt changes 0))
      /\ createVolumeFunc changes t = Ok (ToneVolume (changeAt changes 0)))
  /\ (timeAt changes (length changes - 1) <= t ->
      timeAt changes 0 < t ->
      createFreqFunc changes t
      = Ok (Frequency (changeAt changes (length changes - 1)))
      /\ createBeatFreqFunc changes t
         = Ok (BeatFrequency (changeAt changes (length changes - 1)))
      /\ createVolumeFunc changes t
         = Ok (ToneVolume (changeAt changes (length changes - 1)))).
Proof.
  intros Hne. split; [apply queries_total |]. split.
  - intros Ht. destruct (clamp_low changes t Hne Ht) as (H1 & H2 & H3 & _).
    repeat split; assumption.
  - intros Hhi Hlo.
    destruct (clamp_high changes t Hne Hlo Hhi) as (H1 & H2 & H3 & _).
    repeat split; assumption.
Qed.

(** The scenario of the specification, queried before the start and after
    the end. *)
Lemma clamping_outside_range_witness :
  scenario <> []
  /\ -1 <= timeAt scenario 0
  /\ createFreqFunc scenario (-1) = Ok 300
  /\ timeAt scenario (length scenario - 1) <= 12
  /\ timeAt scenario 0 < 12
  /\ createFreqFunc scenario 12 = Ok 150.
Proof.
  assert (Hne : scenario <> []) by discriminate.
  assert (H1 : -1 <= timeAt scenario 0) by (breakpoint_times).
  assert (H2 : timeAt scenario (length scenario - 1) <= 12)
    by (breakpoint_times).
  assert (H3 : timeAt scenario 0 < 12) by (breakpoint_times).
  repeat split; try assumption.
  - exact (proj1 (proj1 (proj2 (clamping_outside_range scenario (-1) Hne)) H1)).
  - exact (proj1 (proj2 (proj2 (clamping_outside_range scenario 12 Hne)) H2 H3)).
Defined.

(** C4. On a non-empty breakpoint sequence with strictly increasing times,
    [noise] is a step function: for [t] in [[time_i, time_{i+1})] it returns
    the [(noiseOn, noiseVolume)] pair of breakpoint [i] as it is; below the
    first time it returns the first breakpoint's pair, and at or above the
    last time the last breakpoint's pair. *)
Theorem noise_is_step (changes : list ConfigFrequencyChange) (t : R) :
  changes <> [] ->
  strictlyIncreasing changes ->
  (forall i, (i + 1 < length changes)%nat ->
             timeAt changes i <= t < timeAt changes (i + 1) ->
             createPinkNoiseFunc changes t
             = Ok (PinkNoiseOn (changeAt changes i),
                   PinkNoiseVolume (changeAt changes i)))
  /\ (t < timeAt changes 0 ->
      createPinkNoiseFunc changes t
      = Ok (PinkNoiseOn (changeAt changes 0),
            PinkNoiseVolume (changeAt changes 0)))
  /\ (timeAt changes (length changes - 1) <= t ->
      createPinkNoiseFunc changes t
      = Ok (PinkNoiseOn (changeAt changes (length changes - 1)),
            PinkNoiseVolume (changeAt changes (length changes - 1)))).
Proof.
  intros Hne Hs.
  assert (Hnd : nonDecreasing changes)
    by (apply strictlyIncreasing_nonDecreasing; exact Hs).
  split; [| split].
  - intros i Hi Hin.
    destruct (Rle_dec t (timeAt changes 0)) as [Hle | Hgt].
    + assert (i = 0)%nat.
      { destruct i as [| i]; [reflexivity |].
        assert (timeAt changes 0 < timeAt changes (S i))
          by (apply strictlyIncreasing_lt; [assumption | lia | lia]).
        lra. }
      subst i. apply (clamp_low changes t Hne Hle).
    + rewrite createPinkNoiseFunc_scan.
      rewrite (scan_interval _ _ _ changes i t) by (try assumption; lra).
      reflexivity.
  - intros Hlt. apply (clamp_low changes t Hne). lra.
  - intros Hhi.
    destruct (Rle_dec t (timeAt changes 0)) as [Hle | Hgt].
    + assert (length changes - 1 = 0)%nat as ->.
      { destruct (length changes - 1)%nat as [| n] eqn:E; [reflexivity |].
        assert (timeAt changes 0 < timeAt changes (S n))
          by (apply strictlyIncreasing_lt; [assumption | lia | lia]).
        lra. }
      apply (clamp_low changes t Hne Hle).
    + apply (clamp_high changes t Hne); [lra | exact Hhi].
Qed.

(** In the scenario of the specification the noise is on at volume 0.4 up to
    the instant before [t = 10] and off from [t = 10] on. *)
Lemma noise_is_step_witness :
  scenario <> []
  /\ strictlyIncreasing scenario
  /\ createPinkNoiseFunc scenario 0 = Ok (true, 0.4)
  /\ createPinkNoiseFunc scenario 9.999 = Ok (true, 0.4)
  /\ createPinkNoiseFunc scenario 10 = Ok (false, 0).
Proof.
  assert (Hne : scenario <> []) by discriminate.
  assert (Hs : strictlyIncreasing scenario).
  { intros j Hj. cbn in Hj. assert (j = 0)%nat by lia. subst j.
    breakpoint_times. }
  assert (Hi : (0 + 1 < length scenario)%nat) by (cbn; lia).
  split; [exact Hne |]. split; [exact Hs |]. split; [| split].
  - apply (proj1 (noise_is_step scenario 0 Hne Hs) 0%nat Hi).
    breakpoint_times.
  - apply (proj1 (noise_is_step scenario 9.999 Hne Hs) 0%nat Hi).
    breakpoint_times.
  - apply (proj2 (proj2 (noise_is_step scenario 10 Hne Hs))).
    breakpoint_times.
Defined.

Lemma linear_outcome (empty : R) (field : ConfigFrequencyChange -> R)
      (changes : list ConfigFrequencyChange) (t : R) :
  changes <> [] ->
  clampedOrInterpolated field changes t
    (scan empty field (lerp field) changes t).
Proof.
  intros Hne. unfold clampedOrInterpolated.
  destruct (scan_cases empty field (lerp field) changes t Hne)
    as [H | [H | (i & Hi & Hin & H)]].
  - left. exact H.
  - right. left. exact H.
  - right. right. exists i. repeat split; try assumption; try lra.
    rewrite H. unfold linearValue, timeAt in *. apply lerp_ok. lra.
Qed.

(** C5. On a breakpoint sequence with two consecutive breakpoints of equal
    time, every evaluation of every query function at every real [t]
    returns a value without dividing by zero: a linear function either
    clamps to an end breakpoint or interpolates on an interval of positive
    width, the noise function divides nothing, and whenever the condition of
    the interpolation branch holds its divisor
    [time_{i+1} - time_i] is strictly positive. *)
Theorem no_division_by_zero (changes : list ConfigFrequencyChange) (t : R) :
  (exists i, (i + 1 < length changes)%nat
             /\ timeAt changes i = timeAt changes (i + 1)) ->
  clampedOrInterpolated Frequency changes t (createFreqFunc changes t)
  /\ clampedOrInterpolated BeatFrequency changes t (createBeatFreqFunc changes t)
  /\ clampedOrInterpolated ToneVolume changes t (createVolumeFunc changes t)
  /\ (exists nz, createPinkNoiseFunc changes t = Ok nz)
  /\ (forall i, (i + 1 < length changes)%nat ->
                (t >=? timeAt changes i) && (t <? timeAt changes (i + 1)) = true ->
                0 < timeAt changes (i + 1) - timeAt changes i).
Proof.
  intros (i0 & Hi0 & _).
  assert (Hne : changes <> []) by (destruct changes; [cbn in Hi0; lia | discriminate]).
  rewrite createFreqFunc_scan, createBeatFreqFunc_scan, createVolumeFunc_scan.
  repeat split; try (apply linear_outcome; exact Hne).
  - apply queries_total.
  - intros i Hi Hc. apply andb_true_iff in Hc as [Hge Hlt].
    apply fge_spec in Hge. apply flt_spec in Hlt. lra.
Qed.

(** The tie of [tiedMiddle] at time 5, queried at the tie: the interval that
    starts at the later of the two breakpoints answers. *)
Lemma no_division_by_zero_witness :
  (exists i, (i + 1 < length tiedMiddle)%nat
             /\ timeAt tiedMiddle i = timeAt tiedMiddle (i + 1))
  /\ clampedOrInterpolated Frequency tiedMiddle 5 (createFreqFunc tiedMiddle 5)
  /\ (exists nz, createPinkNoiseFunc tiedMiddle 5 = Ok nz).
Proof.
  assert (H : exists i, (i + 1 < length tiedMiddle)%nat
                        /\ timeAt tiedMiddle i = timeAt tiedMiddle (i + 1)).
  { exists 1%nat. split; [cbn; lia | reflexivity]. }
  split; [exact H |]. split.
  - exact (proj1 (no_division_by_zero tiedMiddle 5 H)).
  - exact (proj1 (proj2 (proj2 (proj2 (no_division_by_zero tiedMiddle 5 H))))).
Defined.

(** C6, as stated, fails: in [tiedStart] the breakpoints 0 and 1 share the
    time 0, and at [t = 0] every query function returns the values of
    breakpoint 0, not those of the later breakpoint 1. *)
Lemma tie_at_first_breakpoint_returns_first :
  timeAt tiedStart 0 = 0 /\ timeAt tiedStart 1 = 0
  /\ createFreqFunc tiedStart 0 = Ok 1
  /\ createFreqFunc tiedStart 0 <> Ok (Frequency (changeAt tiedStart 1))
  /\ createBeatFreqFunc tiedStart 0
     <> Ok (BeatFrequency (changeAt tiedStart 1))
  /\ createVolumeFunc tiedStart 0 <> Ok (ToneVolume (changeAt tiedStart 1))
  /\ createPinkNoiseFunc tiedStart 0
     <> Ok (PinkNoiseOn (changeAt tiedStart 1),
            PinkNoiseVolume (changeAt tiedStart 1)).
Proof.
  destruct (clamp_low tiedStart 0) as (Hf & Hb & Hv & Hn).
  - discriminate.
  - breakpoint_times.
  - split; [reflexivity |]. split; [reflexivity |].
    rewrite Hf, Hb, Hv, Hn. unfold changeAt. cbn.
    split; [reflexivity |].
    repeat split; intros H; injection H; intros; try discriminate; lra.
Qed.

(** C6 (amended). Let the times not decrease and let the breakpoints [i] and
    [i+1] share the time [T].
    - Below [T]: when [i = 0] every query function returns the values of
      breakpoint 0; when a breakpoint [k = i-1] precedes, then for [t] in
      [[time_k, T)] above the first breakpoint's time the linear functions
      return the linear value on the interval from [k] to [i], which runs
      toward the value of breakpoint [i], and [noise] returns the pair of
      breakpoint [k].
    - From [T] on, for [t] above the first breakpoint's time: when [i+1] is
      the last breakpoint every query function returns its values; otherwise,
      up to the next breakpoint's time, the linear functions return the
      linear value on the interval that starts at [i+1], which at [t = T] is
      the value of breakpoint [i+1], and [noise] returns the pair of
      breakpoint [i+1].
    - When the shared time is the first breakpoint's time and [t = T], every
      query function returns the values of breakpoint 0. *)
Theorem tie_break (changes : list ConfigFrequencyChange) (i : nat) (T t : R) :
  nonDecreasing changes ->
  (i + 1 < length changes)%nat ->
  timeAt changes i = T ->
  timeAt changes (i + 1) = T ->
  (t < T ->
   (i = 0%nat ->
    createFreqFunc changes t = Ok (Frequency (changeAt changes 0))
    /\ createBeatFreqFunc changes t = Ok (BeatFrequency (changeAt changes 0))
    /\ createVolumeFunc changes t = Ok (ToneVolume (changeAt changes 0))
    /\ createPinkNoiseFunc changes t
       = Ok (PinkNoiseOn (changeAt changes 0),
             PinkNoiseVolume (changeAt changes 0)))
   /\ (forall k, (k + 1)%nat = i ->
                 timeAt changes 0 < t -> timeAt changes k <= t ->
                 createFreqFunc changes t = Ok (linearValue Frequency changes k t)
                 /\ createBeatFreqFunc changes t
                    = Ok (linearValue BeatFrequency changes k t)
                 /\ createVolumeFunc changes t
                    = Ok (linearValue ToneVolume changes k t)
                 /\ createPinkNoiseFunc changes t
                    = Ok (PinkNoiseOn (changeAt changes k),
                          PinkNoiseVolume (changeAt changes k))))
  /\ (T <= t -> timeAt changes 0 < t ->
      ((i + 2)%nat = length changes ->
       createFreqFunc changes t = Ok (Frequency (changeAt changes (i + 1)))
       /\ createBeatFreqFunc changes t
          = Ok (BeatFrequency (changeAt changes (i + 1)))
       /\ createVolumeFunc changes t = Ok (ToneVolume (changeAt changes (i + 1)))
       /\ createPinkNoiseFunc changes t
          = Ok (PinkNoiseOn (changeAt changes (i + 1)),
                PinkNoiseVolume (changeAt changes (i + 1))))
      /\ ((i + 2 < length changes)%nat -> t < timeAt changes (i + 1 + 1) ->
          createFreqFunc changes t
          = Ok (linearValue Frequency changes (i + 1) t)
          /\ createBeatFreqFunc changes t
             = Ok (linearValue BeatFrequency changes (i + 1) t)
          /\ createVolumeFunc changes t
             = Ok (linearValue ToneVolume changes (i + 1) t)
          /\ createPinkNoiseFunc changes t
             = Ok (PinkNoiseOn (changeAt changes (i + 1)),
                   PinkNoiseVolume (changeAt changes (i + 1)))
          /\ linearValue Frequency changes (i + 1) T
             = Frequency (changeAt changes (i + 1))
          /\ linearValue BeatFrequency changes (i + 1) T
             = BeatFrequency (changeAt changes (i + 1))
          /\ linearValue ToneVolume changes (i + 1) T
             = ToneVolume (changeAt changes (i + 1))))
  /\ (i = 0%nat -> t = T ->
      createFreqFunc changes t = Ok (Frequency (changeAt changes 0))
      /\ createBeatFreqFunc changes t = Ok (BeatFrequency (changeAt changes 0))
      /\ createVolumeFunc changes t = Ok (ToneVolume (changeAt changes 0))
      /\ createPinkNoiseFunc changes t
         = Ok (PinkNoiseOn (changeAt changes 0),
               PinkNoiseVolume (changeAt changes 0))).
Proof.
  intros Hnd Hi HT HT'.
  assert (Hne : changes <> [])
    by (destruct changes; [cbn in Hi; lia | discriminate]).
  split; [| split].
  - intros Hlt. split.
    + intros ->. apply (clamp_low changes t Hne). lra.
    + intros k Hk Hlo Hkt. subst i.
      assert (Hin : timeAt changes k <= t < timeAt changes (k + 1)) by lra.
      destruct (linear_interval changes k t Hnd ltac:(lia) Hlo Hin)
        as (Hf & Hb & Hv).
      repeat split; try assumption.
      rewrite createPinkNoiseFunc_scan.
      rewrite (scan_interval _ _ _ changes k t) by (try assumption; lia).
      reflexivity.
  - intros Hge Hlo. split.
    + intros Hlast.
      replace (i + 1)%nat with (length changes - 1)%nat in * by lia.
      apply (clamp_high changes t Hne Hlo). lra.
    + intros Hnext Hlt.
      assert (Hin : timeAt changes (i + 1) <= t < timeAt changes (i + 1 + 1))
        by lra.
      destruct (linear_interval changes (i + 1) t Hnd ltac:(lia) Hlo Hin)
        as (Hf & Hb & Hv).
      split; [exact Hf |]. split; [exact Hb |]. split; [exact Hv |]. split.
      * rewrite createPinkNoiseFunc_scan.
        rewrite (scan_interval _ _ _ changes (i + 1) t) by (try assumption; lia).
        reflexivity.
      * unfold linearValue. rewrite HT'.
        repeat split; unfold Rdiv; rewrite Rminus_diag; ring.
  - intros -> ->. apply (clamp_low changes _ Hne). lra.
Qed.

(** The tie of [tiedMiddle] at [T = 5] between the breakpoints 1 and 2:
    just below it the base frequency runs from 100 toward 200, at the tie
    it is 400, the value of the later breakpoint. *)
Lemma tie_break_witness :
  nonDecreasing tiedMiddle
  /\ (1 + 1 < length tiedMiddle)%nat
  /\ timeAt tiedMiddle 1 = 5
  /\ timeAt tiedMiddle (1 + 1) = 5
  /\ createFreqFunc tiedMiddle 4 = Ok (linearValue Frequency tiedMiddle 0 4)
  /\ createFreqFunc tiedMiddle 5 = Ok (linearValue Frequency tiedMiddle 2 5)
  /\ linearValue Frequency tiedMiddle 2 5 = 400.
Proof.
  assert (Hnd : nonDecreasing tiedMiddle).
  { intros j Hj. cbn in Hj.
    assert (Hc : (j = 0 \/ j = 1 \/ j = 2)%nat) by lia.
    destruct Hc as [-> | [-> | ->]]; breakpoint_times. }
  assert (Hi : (1 + 1 < length tiedMiddle)%nat) by (cbn; lia).
  assert (H1 : timeAt tiedMiddle 1 = 5) by reflexivity.
  assert (H2 : timeAt tiedMiddle (1 + 1) = 5) by reflexivity.
  split; [exact Hnd |]. split; [exact Hi |].
  split; [exact H1 |]. split; [exact H2 |].
  split; [| split].
  - refine (proj1 (proj2 (proj1 (tie_break tiedMiddle 1 5 4 Hnd Hi H1 H2) _)
                     0%nat eq_refl _ _));
      breakpoint_times.
  - refine (proj1 (proj2 (proj1 (proj2 (tie_break tiedMiddle 1 5 5 Hnd Hi H1 H2)) _ _)
                     _ _));
      unfold timeAt, changeAt; cbn; try lia; lra.
  - refine (proj1 (proj2 (proj2 (proj2 (proj2 (proj2
             (proj1 (proj2 (tie_break tiedMiddle 1 5 5 Hnd Hi H1 H2)) _ _) _ _))))));
      unfold timeAt, changeAt; cbn; try lia; lra.
Defined.

End ScheduleSpec.

(** ** Facts about the streaming loops *)

Module StreamFacts.

Import Player Signal.

Lemma after_next {S : Type} (next : S -> S) (n : nat) (s : S) :
  after next (Datatypes.S n) s = after next n (next s).
Proof. unfold after. apply Nat.iter_succ_r. Qed.

(** A loop body that, under an invariant indexed by the number of frames
    done, succeeds with state [next s] and frame [emit s fr]. *)
Section ForRange.

Context {S : Type}.
Variable body : S -> Frame -> result (S * Frame).
Variable next : S -> S.
Variable emit : S -> Frame -> Frame.
Variable Inv : nat -> S -> Prop.
Variable N : nat.

Hypothesis body_step :
  forall j s fr, (j < N)%nat -> Inv j s ->
                 body s fr = Ok (next s, emit s fr) /\ Inv (Datatypes.S j) (next s).

Lemma after_inv (n k : nat) (s : S) :
  (k + n <= N)%nat -> Inv k s -> Inv (k + n) (after next n s).
Proof.
  revert k s. induction n as [| n IH]; intros k s Hk Hs.
  - replace (k + 0)%nat with k by lia. exact Hs.
  - rewrite after_next. replace (k + Datatypes.S n)%nat with (Datatypes.S k + n)%nat by lia.
    apply IH; [lia |].
    apply (body_step k s (0, 0)); [lia | exact Hs].
Qed.

Lemma forRange_run (samples : list Frame) :
  forall (k : nat) (s : S),
    (k + length samples = N)%nat -> Inv k s ->
    exists out,
      forRange body s samples = Ok (after next (length samples) s, out)
      /\ length out = length samples
      /\ forall n d, (n < length samples)%nat ->
                     nth n out d = emit (after next n s) (nth n samples d).
Proof.
  induction samples as [| fr rest IH]; intros k s Hk Hs.
  - exists []. cbn. repeat split. intros n d Hn. lia.
  - cbn [length] in Hk.
    destruct (body_step k s fr) as [Hb Hi]; [lia | exact Hs |].
    destruct (IH (Datatypes.S k) (next s)) as (out & Hrun & Hlen & Hnth);
      [lia | exact Hi |].
    exists (emit s fr :: out).
    cbn [forRange length]. rewrite Hb. cbn [bind fst snd].
    rewrite Hrun. cbn [bind ret fst snd]. rewrite after_next.
    split; [reflexivity |]. split; [cbn; lia |].
    intros [| n] d Hn.
    + reflexivity.
    + cbn [nth]. rewrite after_next. apply Hnth. lia.
Qed.

End ForRange.

Lemma forRange_app {S : Type} (body : S -> Frame -> result (S * Frame))
      (a b : list Frame) :
  forall s,
    forRange body s (a ++ b)
    = (ra <- forRange body s a ;;
       rb <- forRange body (fst ra) b ;;
       ret (fst rb, snd ra ++ snd rb)).
Proof.
  induction a as [| fr a IH]; intros s.
  - cbn. destruct (forRange body s b) as [[s' out] |]; reflexivity.
  - cbn [app forRange]. destruct (body s fr) as [[s1 fr1] |]; cbn [bind fst snd];
      [| reflexivity].
    rewrite IH.
    destruct (forRange body s1 a) as [[s2 outa] |]; cbn [bind fst snd ret];
      [| reflexivity].
    destruct (forRange body s2 b) as [[s3 outb] |]; reflexivity.
Qed.

End StreamFacts.

(** ** The oscillator *)

Module OscillatorSpec.

Import Player Shape Signal Scenarios StreamFacts ScheduleFacts.

Section Tone.

Variable vt0 : VariableTone.t.
Variables freqAt volAt : R -> R.
Variable N : nat.

Hypothesis sr_nonzero : VariableTone.sr vt0 <> 0%Z.
Hypothesis pos_low : (0 <= VariableTone.pos vt0)%Z.
Hypothesis pos_high : (VariableTone.pos vt0 + Z.of_nat N <= maxInt)%Z.
Hypothesis freq_ok : forall t, VariableTone.freqFunc vt0 t = Ok (freqAt t).
Hypothesis vol_ok : forall t, VariableTone.volumeFunc vt0 t = Ok (volAt t).

Lemma tone_body_step (j : nat) (vt : VariableTone.t) (fr : Frame) :
  (j < N)%nat -> toneInv freqAt vt0 j vt ->
  VariableTone.body vt fr = Ok (toneNext freqAt vt, toneEmit freqAt volAt vt fr)
  /\ toneInv freqAt vt0 (S j) (toneNext freqAt vt).
Proof.
  intros Hj (Hsr & Hpos & Hph & Hf & Hv & Hch).
  assert (Hsr0 : IZR (VariableTone.sr vt) <> 0)
    by (rewrite Hsr; apply not_0_IZR; exact sr_nonzero).
  split.
  - unfold VariableTone.body.
    assert (Ef : forall t, VariableTone.freqFunc vt t = Ok (freqAt t))
      by (intros t; rewrite Hf; apply freq_ok).
    assert (Ev : forall t, VariableTone.volumeFunc vt t = Ok (volAt t))
      by (intros t; rewrite Hv; apply vol_ok).
    rewrite fdiv_ok by exact Hsr0. cbn [bind].
    rewrite Ef, Ev. cbn [bind].
    rewrite fdiv_ok by exact Hsr0. cbn [bind ret].
    reflexivity.
  - unfold toneInv, toneNext. cbn.
    repeat split; try assumption.
    + rewrite Hpos. rewrite wrapInt_id by (unfold maxInt in *; lia). lia.
    + rewrite Hph, Hpos, Hsr. reflexivity.
Qed.

Lemma toneInv_start : toneInv freqAt vt0 0 vt0.
Proof.
  unfold toneInv. repeat split. cbn. lia.
Qed.

Lemma tone_stream_run (samples : list Frame) :
  length samples = N ->
  exists out,
    VariableTone.Stream vt0 samples
    = Ok (after (toneNext freqAt) N vt0, out, N, true)
    /\ length out = N
    /\ toneInv freqAt vt0 N (after (toneNext freqAt) N vt0)
    /\ forall n, (n < N)%nat ->
                 toneInv freqAt vt0 n (after (toneNext freqAt) n vt0)
                 /\ nth n out (0, 0)
                    = toneEmit freqAt volAt (after (toneNext freqAt) n vt0)
                               (nth n samples (0, 0)).
Proof.
  intros Hlen.
  destruct (forRange_run VariableTone.body (toneNext freqAt)
              (toneEmit freqAt volAt) (toneInv freqAt vt0) N
              tone_body_step samples 0 vt0)
    as (out & Hrun & Hout & Hnth); [lia | apply toneInv_start |].
  exists out. unfold VariableTone.Stream. rewrite Hrun, Hlen in *.
  cbn [bind ret fst snd]. split; [reflexivity |]. split; [exact Hout |].
  split.
  - apply (after_inv VariableTone.body (toneNext freqAt) (toneEmit freqAt volAt)
             (toneInv freqAt vt0) N tone_body_step N 0 vt0);
      [lia | apply toneInv_start].
  - intros n Hn. split.
    + apply (after_inv VariableTone.body (toneNext freqAt) (toneEmit freqAt volAt)
               (toneInv freqAt vt0) N tone_body_step n 0 vt0);
        [lia | apply toneInv_start].
    + apply Hnth. lia.
Qed.

End Tone.

(** C1. For every oscillator whose frequency and volume functions return
    [freqAt t] and [volAt t], and every buffer it is asked to fill: the
    sample at position [n] is taken at [t = n / sr]; the phase used for it is
    the phase before it plus [2 * PI * freqAt t / sr]; the phase after the
    whole buffer is the sum of all increments since the start, with no reset
    and no wrap, and it is carried into the next call, so that filling a
    buffer in two calls gives what one call gives; the value added to the
    oscillator's channel is [sin phase * volAt t * 0.5].  In [main] the left
    oscillator's frequency function is [frequency] and the right one's is
    [frequency + beatFrequency]. *)
Theorem phase_accumulating_oscillator :
  (forall (vt : VariableTone.t) (freqAt volAt : R -> R) (samples : list Frame),
      VariableTone.sr vt <> 0%Z ->
      (0 <= VariableTone.pos vt)%Z ->
      (VariableTone.pos vt + Z.of_nat (length samples) <= maxInt)%Z ->
      (forall t, VariableTone.freqFunc vt t = Ok (freqAt t)) ->
      (forall t, VariableTone.volumeFunc vt t = Ok (volAt t)) ->
      exists vt' out,
        VariableTone.Stream vt samples = Ok (vt', out, length samples, true)
        /\ length out = length samples
        /\ VariableTone.sr vt' = VariableTone.sr vt
        /\ VariableTone.channel vt' = VariableTone.channel vt
        /\ VariableTone.freqFunc vt' = VariableTone.freqFunc vt
        /\ VariableTone.volumeFunc vt' = VariableTone.volumeFunc vt
        /\ VariableTone.pos vt'
           = (VariableTone.pos vt + Z.of_nat (length samples))%Z
        /\ VariableTone.phase vt'
           = phaseAfter freqAt (VariableTone.sr vt) (VariableTone.pos vt)
                        (VariableTone.phase vt) (length samples)
        /\ (forall n, (n < length samples)%nat ->
              let t := IZR (VariableTone.pos vt + Z.of_nat n)
                       / IZR (VariableTone.sr vt) in
              let before := phaseAfter freqAt (VariableTone.sr vt)
                              (VariableTone.pos vt) (VariableTone.phase vt) n in
              let phase := phaseAfter freqAt (VariableTone.sr vt)
                             (VariableTone.pos vt) (VariableTone.phase vt) (S n) in
              let s := sin phase * volAt t * 0.5 in
              phase = before + 2 * PI * freqAt t / IZR (VariableTone.sr vt)
              /\ nth n out (0, 0)
                 = if (VariableTone.channel vt =? 0)%Z
                   then (fst (nth n samples (0, 0)) + s, snd (nth n samples (0, 0)))
                   else (fst (nth n samples (0, 0)), snd (nth n samples (0, 0)) + s))
        /\ (forall a b, samples = a ++ b ->
              exists vta outa outb,
                VariableTone.Stream vt a = Ok (vta, outa, length a, true)
                /\ VariableTone.Stream vta b = Ok (vt', outb, length b, true)
                /\ out = outa ++ outb))
  /\ (forall (changes : list ConfigFrequencyChange) (t : R),
         VariableTone.freqFunc (leftTone changes) t = createFreqFunc changes t
         /\ (forall f bf,
                createFreqFunc changes t = Ok f ->
                createBeatFreqFunc changes t = Ok bf ->
                VariableTone.freqFunc (rightTone changes) t = Ok (f + bf))
         /\ VariableTone.volumeFunc (leftTone changes) t
            = createVolumeFunc changes t
         /\ VariableTone.volumeFunc (rightTone changes) t
            = createVolumeFunc changes t)
  /\ (forall stretchFactor parsed source l r g,
         main stretchFactor parsed source = Ok (Playing l r g) ->
         l = leftTone (map (stretch stretchFactor) parsed)
         /\ r = rightTone (map (stretch stretchFactor) parsed)).
Proof.
  split; [| split].
  - intros vt freqAt volAt samples Hsr Hlo Hhi Hf Hv.
    destruct (tone_stream_run vt freqAt volAt (length samples)
                Hsr Hlo Hhi Hf Hv samples eq_refl)
      as (out & Hrun & Hlen & Hend & Hnth).
    destruct Hend as (Esr & Epos & Eph & Ef & Ev & Ech).
    exists (after (toneNext freqAt) (length samples) vt), out.
    split; [exact Hrun |]. split; [exact Hlen |].
    split; [exact Esr |]. split; [exact Ech |]. split; [exact Ef |].
    split; [exact Ev |]. split; [exact Epos |]. split; [exact Eph |].
    split.
    + intros n Hn. cbn zeta. split; [reflexivity |].
      destruct (Hnth n Hn) as ((Esr' & Epos' & Eph' & _ & _ & Ech') & Hfr).
      rewrite Hfr.
      generalize dependent (after (toneNext freqAt) n vt). intros st Esr' Epos' Eph' Ech' _.
      unfold toneEmit, toneNext.
      cbn [VariableTone.phase VariableTone.pos VariableTone.sr VariableTone.channel].
      rewrite Esr', Epos', Eph', Ech'. reflexivity.
    + intros a b Hab. subst samples.
      unfold VariableTone.Stream in Hrun.
      rewrite forRange_app in Hrun.
      unfold VariableTone.Stream.
      destruct (forRange VariableTone.body vt a) as [[vta outa] |] eqn:Ea;
        cbn [bind fst snd] in Hrun; [| discriminate].
      destruct (forRange VariableTone.body vta b) as [[vtb outb] |] eqn:Eb;
        cbn [bind ret fst snd] in Hrun; [| discriminate].
      exists vta, outa, outb. rewrite Eb. cbn [bind ret fst snd].
      injection Hrun as Hs Ho. subst vtb. subst out.
      repeat split.
  - intros changes t. cbn [leftTone rightTone VariableTone.freqFunc VariableTone.volumeFunc].
    unfold freqFuncLeft, freqFuncRight.
    repeat split. intros f bf Ef Eb. rewrite Ef, Eb. reflexivity.
  - intros stretchFactor parsed source l r g. unfold main.
    destruct (getTotalPlaybackTime _) as [total |]; cbn [bind]; [| discriminate].
    destruct (feq total 0); cbn [ret]; [discriminate |].
    intros H. injection H as <- <- _. split; reflexivity.
Qed.

(** The functions [main] gives to the oscillators return a value at every
    time. *)
Lemma tones_total (changes : list ConfigFrequencyChange) (t : R) :
  VariableTone.freqFunc (leftTone changes) t
  = Ok (valueOf (createFreqFunc changes t))
  /\ VariableTone.freqFunc (rightTone changes) t
     = Ok (valueOf (createFreqFunc changes t)
           + valueOf (createBeatFreqFunc changes t))
  /\ VariableTone.volumeFunc (leftTone changes) t
     = Ok (valueOf (createVolumeFunc changes t))
  /\ VariableTone.volumeFunc (rightTone changes) t
     = Ok (valueOf (createVolumeFunc changes t)).
Proof.
  destruct (ScheduleSpec.queries_total changes t)
    as ((f & Ef) & (bf & Eb) & (v & Ev) & _).
  cbn [leftTone rightTone VariableTone.freqFunc VariableTone.volumeFunc].
  unfold freqFuncLeft, freqFuncRight. rewrite Ef, Eb, Ev.
  repeat split.
Qed.

(** The left oscillator of the scenario of the specification, asked for two
    frames. *)
Lemma phase_accumulating_oscillator_witness :
  VariableTone.sr (leftTone scenario) <> 0%Z
  /\ (0 <= VariableTone.pos (leftTone scenario))%Z
  /\ (VariableTone.pos (leftTone scenario) + 2 <= maxInt)%Z
  /\ exists vt' out,
       VariableTone.Stream (leftTone scenario) [(0, 0); (0, 0)]
       = Ok (vt', out, 2%nat, true)
       /\ VariableTone.phase vt'
          = phaseAfter (fun t => valueOf (createFreqFunc scenario t))
                       44100 0 0 2.
Proof.
  assert (H1 : VariableTone.sr (leftTone scenario) <> 0%Z) by discriminate.
  assert (H2 : (0 <= VariableTone.pos (leftTone scenario))%Z) by (cbn; lia).
  assert (H3 : (VariableTone.pos (leftTone scenario)
                + Z.of_nat (length [(0, 0); (0, 0)]) <= maxInt)%Z)
    by (unfold maxInt; cbn; lia).
  split; [exact H1 |]. split; [exact H2 |]. split; [exact H3 |].
  destruct (proj1 phase_accumulating_oscillator (leftTone scenario)
              (fun t => valueOf (createFreqFunc scenario t))
              (fun t => valueOf (createVolumeFunc scenario t))
              [(0, 0); (0, 0)] H1 H2 H3
              (fun t => proj1 (tones_total scenario t))
              (fun t => proj1 (proj2 (proj2 (tones_total scenario t)))))
    as (vt' & out & Hrun & _ & _ & _ & _ & _ & _ & Hph & _).
  exists vt', out. split; [exact Hrun | exact Hph].
Defined.

(** The first frame of both oscillators of [main], from the values of the
    schedule at time 0. *)
Lemma first_frame (changes : list ConfigFrequencyChange) (f bf v : R)
      (fr : Frame) :
  createFreqFunc changes 0 = Ok f ->
  createBeatFreqFunc changes 0 = Ok bf ->
  createVolumeFunc changes 0 = Ok v ->
  (exists vl,
      VariableTone.Stream (leftTone changes) [fr]
      = Ok (vl, [(fst fr + sin (2 * PI * f / 44100) * v * 0.5, snd fr)],
            1%nat, true))
  /\ (exists vr,
         VariableTone.Stream (rightTone changes) [fr]
         = Ok (vr, [(fst fr, snd fr + sin (2 * PI * (f + bf) / 44100) * v * 0.5)],
               1%nat, true)).
Proof.
  intros Ef Eb Ev.
  assert (H0 : IZR 0 / IZR 44100 = 0) by lra.
  assert (Hsr : IZR 44100 <> 0) by lra.
  split; eexists; unfold VariableTone.Stream; cbn [forRange length];
    unfold VariableTone.body;
    cbn [leftTone rightTone VariableTone.sr VariableTone.pos VariableTone.phase
         VariableTone.freqFunc VariableTone.volumeFunc VariableTone.channel];
    rewrite fdiv_ok by exact Hsr; cbn [bind]; rewrite H0;
    unfold freqFuncLeft, freqFuncRight; rewrite Ef, ?Eb, Ev; cbn [bind ret];
    rewrite fdiv_ok by exact Hsr; cbn [bind ret fst snd Z.eqb];
    rewrite Rplus_0_l; reflexivity.
Qed.

(** C7, as stated, fails: for the schedule [quarterRate], which [main]
    accepts, the first sample of the left oscillator is 0.5 and so is the
    first sample of the right oscillator. *)
Lemma first_sample_is_not_silent :
  (exists l r g, main 1 quarterRate halfSource = Ok (Playing l r g)
                 /\ l = leftTone (map (stretch 1) quarterRate)
                 /\ r = rightTone (map (stretch 1) quarterRate))
  /\ (exists vl,
         VariableTone.Stream (leftTone (map (stretch 1) quarterRate)) [(0, 0)]
         = Ok (vl, [(0.5, 0)], 1%nat, true))
  /\ (exists vr,
         VariableTone.Stream (rightTone (map (stretch 1) quarterRate)) [(0, 0)]
         = Ok (vr, [(0, 0.5)], 1%nat, true))
  /\ 0.5 <> 0.
Proof.
  assert (Hne : map (stretch 1) quarterRate <> []) by discriminate.
  assert (Hlo : 0 <= timeAt (map (stretch 1) quarterRate) 0)
    by (breakpoint_times).
  destruct (ScheduleSpec.clamp_low (map (stretch 1) quarterRate) 0 Hne Hlo)
    as (Ef & Eb & Ev & _).
  change (createFreqFunc (map (stretch 1) quarterRate) 0 = Ok 11025) in Ef.
  change (createBeatFreqFunc (map (stretch 1) quarterRate) 0 = Ok 0) in Eb.
  change (createVolumeFunc (map (stretch 1) quarterRate) 0 = Ok 1) in Ev.
  destruct (first_frame (map (stretch 1) quarterRate) _ _ _ (0, 0) Ef Eb Ev)
    as ((vl & Hl) & (vr & Hr)).
  assert (Hs : sin (2 * PI * 11025 / 44100) = 1).
  { replace (2 * PI * 11025 / 44100) with (PI / 2) by field. apply sin_PI2. }
  assert (Hs' : sin (2 * PI * (11025 + 0) / 44100) = 1).
  { replace (2 * PI * (11025 + 0) / 44100) with (PI / 2) by field. apply sin_PI2. }
  rewrite Hs in Hl. rewrite Hs' in Hr. cbn [fst snd] in Hl, Hr.
  split; [| split; [| split]].
  - eexists _, _, _. split; [| split; reflexivity].
    unfold main, getTotalPlaybackTime, quarterRate.
    cbn [index nth_error bind ret map length Nat.eqb fold_left stretch Time].
    rewrite (fgt_false (0 * 1) (0 * 1)) by lra.
    rewrite (fgt_true (10 * 1) (0 * 1)) by lra.
    rewrite feq_false by lra. reflexivity.
  - exists vl. refine (eq_trans Hl _). repeat f_equal; lra.
  - exists vr. refine (eq_trans Hr _). repeat f_equal; lra.
  - lra.
Qed.

(** C7 (amended). For every schedule with frequency [f], beat frequency [bf]
    and tone volume [v] at time 0, the first sample of the left oscillator
    is [sin (2 * PI * f / 44100) * v * 0.5] and the first sample of the
    right oscillator is [sin (2 * PI * (f + bf) / 44100) * v * 0.5], added
    to the frame they are given: the first phase increment is applied
    before the sine is taken. *)
Theorem first_sample_has_first_increment
        (changes : list ConfigFrequencyChange) (f bf v : R) (fr : Frame) :
  createFreqFunc changes 0 = Ok f ->
  createBeatFreqFunc changes 0 = Ok bf ->
  createVolumeFunc changes 0 = Ok v ->
  (exists vl,
      VariableTone.Stream (leftTone changes) [fr]
      = Ok (vl, [(fst fr + sin (2 * PI * f / 44100) * v * 0.5, snd fr)],
            1%nat, true))
  /\ (exists vr,
         VariableTone.Stream (rightTone changes) [fr]
         = Ok (vr, [(fst fr, snd fr + sin (2 * PI * (f + bf) / 44100) * v * 0.5)],
               1%nat, true)).
Proof.
  intros Ef Eb Ev. apply first_frame; assumption.
Qed.

(** The scenario of the specification: 300 Hz, beat 10 Hz and tone volume 0.1
    at time 0. *)
Lemma first_sample_has_first_increment_witness :
  createFreqFunc scenario 0 = Ok 300
  /\ createBeatFreqFunc scenario 0 = Ok 10
  /\ createVolumeFunc scenario 0 = Ok 0.1
  /\ (exists vl,
         VariableTone.Stream (leftTone scenario) [(0, 0)]
         = Ok (vl, [(fst (0, 0) + sin (2 * PI * 300 / 44100) * 0.1 * 0.5,
                     snd (0, 0))], 1%nat, true)).
Proof.
  assert (Hne : scenario <> []) by discriminate.
  assert (Hlo : 0 <= timeAt scenario 0) by (breakpoint_times).
  destruct (ScheduleSpec.clamp_low scenario 0 Hne Hlo) as (Ef & Eb & Ev & _).
  split; [exact Ef |]. split; [exact Eb |]. split; [exact Ev |].
  exact (proj1 (first_sample_has_first_increment scenario 300 10 0.1 (0, 0)
                  Ef Eb Ev)).
Defined.

End OscillatorSpec.

(** ** The pink-noise generator and the noise gate *)

Module NoiseFacts.

Import Player Shape Signal Scenarios StreamFacts ScheduleFacts.

Lemma assign_ok (a : list R) (i : nat) (v : R) :
  (i < length a)%nat ->
  exists a', PinkNoise.assign a i v = Ok a' /\ length a' = length a.
Proof.
  intros Hi. unfold PinkNoise.assign.
  destruct (Nat.ltb_spec i (length a)) as [_ | Hge]; [| lia].
  eexists. split; [reflexivity |].
  rewrite length_app. cbn [length]. rewrite length_firstn, length_skipn. lia.
Qed.

Lemma redraw_ok (diff : Z) :
  forall (n i : nat) (r : PinkNoise.Rand) (w : list R),
    (i + n <= length w)%nat ->
    exists r' w', PinkNoise.redraw diff n i r w = Ok (r', w')
                  /\ length w' = length w.
Proof.
  induction n as [| n IH]; intros i r w Hlen.
  - exists r, w. split; reflexivity.
  - cbn [PinkNoise.redraw].
    destruct (negb _).
    + destruct (assign_ok w i (fst (PinkNoise.Float64 r) * 2 - 1))
        as (w1 & Hw1 & Hl1); [lia |].
      rewrite Hw1. cbn [bind].
      destruct (IH (S i) (snd (PinkNoise.Float64 r)) w1) as (r' & w' & Hrun & Hl');
        [lia |].
      exists r', w'. split; [exact Hrun | lia].
    + destruct (IH (S i) r w) as (r' & w' & Hrun & Hl'); [lia |].
      exists r', w'. split; [exact Hrun | exact Hl'].
Qed.

Lemma nextSample_ok (pn : PinkNoise.t) :
  length (PinkNoise.white pn) = 5%nat ->
  exists p pn', PinkNoise.nextSample pn = Ok (p, pn')
                /\ length (PinkNoise.white pn') = 5%nat.
Proof.
  intros Hw. unfold PinkNoise.nextSample.
  match goal with
  | |- context [PinkNoise.redraw ?d 5 0 ?r ?w] =>
      destruct (redraw_ok d 5 0 r w) as (r' & w' & Hrun & Hl); [lia |];
      rewrite Hrun
  end.
  cbn [bind fst snd]. rewrite Hw in Hl.
  destruct w' as [| w0 [| w1 [| w2 [| w3 [| w4 [| w5 rest]]]]]];
    cbn in Hl; try discriminate.
  cbn [index nth_error bind ret]. eexists _, _. split; reflexivity.
Qed.

Lemma pinkSamples_ok :
  forall (k : nat) (pn : PinkNoise.t),
    length (PinkNoise.white pn) = 5%nat ->
    exists noise pn', pinkSamples pn k = Ok (noise, pn')
                      /\ length noise = k
                      /\ length (PinkNoise.white pn') = 5%nat.
Proof.
  induction k as [| k IH]; intros pn Hw.
  - exists [], pn. repeat split. exact Hw.
  - destruct (nextSample_ok pn Hw) as (p & pn1 & Hp & Hw1).
    destruct (IH pn1 Hw1) as (noise & pn' & Hrun & Hlen & Hw').
    exists (p :: noise), pn'. cbn [pinkSamples]. rewrite Hp. cbn [bind fst snd].
    rewrite Hrun. cbn [bind ret fst snd length].
    repeat split; [lia | exact Hw'].
Qed.

(** [PinkNoise.Stream] adds the next mono samples to both channels. *)
Lemma pink_stream_run :
  forall (samples : list Frame) (pn pn' : PinkNoise.t) (noise : list R),
    pinkSamples pn (length samples) = Ok (noise, pn') ->
    PinkNoise.Stream pn samples
    = Ok (pn', addMono samples noise, length samples, true).
Proof.
  assert (G : forall samples pn pn' noise,
             pinkSamples pn (length samples) = Ok (noise, pn') ->
             forRange
               (fun pn fr =>
                  sp <- PinkNoise.nextSample pn ;;
                  ret (snd sp, (fst fr + fst sp, snd fr + fst sp)))
               pn samples
             = Ok (pn', addMono samples noise)).
  { induction samples as [| fr rest IH]; intros pn pn' noise Hrun.
    - cbn in Hrun. injection Hrun as <- <-. reflexivity.
    - cbn [length pinkSamples] in Hrun. cbn [forRange].
      destruct (PinkNoise.nextSample pn) as [[p pn1] |]; cbn [bind ret fst snd] in *;
        [| discriminate].
      destruct (pinkSamples pn1 (length rest)) as [[ps pn2] |] eqn:E;
        cbn [bind ret fst snd] in Hrun; [| discriminate].
      injection Hrun as <- <-.
      rewrite (IH pn1 pn2 ps E). reflexivity. }
  intros samples pn pn' noise Hrun. unfold PinkNoise.Stream.
  rewrite (G samples pn pn' noise Hrun). reflexivity.
Qed.

Lemma addMono_length :
  forall (samples : list Frame) (noise : list R),
    length noise = length samples ->
    length (addMono samples noise) = length samples.
Proof.
  induction samples as [| fr rest IH]; intros [| p ps] H; cbn in *;
    try reflexivity; try discriminate.
  f_equal. apply IH. lia.
Qed.

Lemma addMono_nth :
  forall (samples : list Frame) (noise : list R) (n : nat),
    length noise = length samples -> (n < length samples)%nat ->
    nth n (addMono samples noise) (0, 0)
    = (fst (nth n samples (0, 0)) + nth n noise 0,
       snd (nth n samples (0, 0)) + nth n noise 0).
Proof.
  induction samples as [| fr rest IH]; intros [| p ps] n H Hn; cbn in *;
    try lia; try discriminate.
  destruct n as [| n]; [reflexivity |]. apply IH; lia.
Qed.

Section Gate.

Context {S : Type}.
Variable pnc0 : PinkNoiseControl.t S.
Variable onAt : R -> bool.
Variable volAt : R -> R.
Variable N : nat.

Hypothesis sr_nonzero : PinkNoiseControl.sr pnc0 <> 0%Z.
Hypothesis pos_low : (0 <= PinkNoiseControl.pos pnc0)%Z.
Hypothesis pos_high : (PinkNoiseControl.pos pnc0 + Z.of_nat N <= maxInt)%Z.
Hypothesis vol_ok :
  forall t, PinkNoiseControl.volumeFunc pnc0 t = Ok (onAt t, volAt t).

Lemma gate_body_step (j : nat) (pnc : PinkNoiseControl.t S) (fr : Frame) :
  (j < N)%nat -> gateInv pnc0 j pnc ->
  PinkNoiseControl.body pnc fr = Ok (gateNext pnc, gateEmit onAt volAt pnc fr)
  /\ gateInv pnc0 (Datatypes.S j) (gateNext pnc).
Proof.
  intros Hj (Hsr & Hpos & Hv & Hst).
  assert (Hsr0 : IZR (PinkNoiseControl.sr pnc) <> 0)
    by (rewrite Hsr; apply not_0_IZR; exact sr_nonzero).
  assert (Ev : forall t, PinkNoiseControl.volumeFunc pnc t = Ok (onAt t, volAt t))
    by (intros t; rewrite Hv; apply vol_ok).
  split.
  - unfold PinkNoiseControl.body.
    rewrite fdiv_ok by exact Hsr0. cbn [bind].
    rewrite Ev. cbn [bind ret fst snd]. reflexivity.
  - unfold gateInv, gateNext. cbn.
    repeat split; try assumption.
    rewrite Hpos. rewrite wrapInt_id by (unfold maxInt in *; lia). lia.
Qed.

Lemma gate_loop_run (samples : list Frame) :
  length samples = N ->
  exists out,
    forRange PinkNoiseControl.body pnc0 samples = Ok (after gateNext N pnc0, out)
    /\ length out = N
    /\ gateInv pnc0 N (after gateNext N pnc0)
    /\ forall n, (n < N)%nat ->
                 nth n out (0, 0)
                 = gateEmit onAt volAt
                     {| PinkNoiseControl.stream := PinkNoiseControl.stream pnc0;
                        PinkNoiseControl.volumeFunc := PinkNoiseControl.volumeFunc pnc0;
                        PinkNoiseControl.sr := PinkNoiseControl.sr pnc0;
                        PinkNoiseControl.pos :=
                          (PinkNoiseControl.pos pnc0 + Z.of_nat n)%Z |}
                     (nth n samples (0, 0)).
Proof.
  intros Hlen.
  destruct (forRange_run PinkNoiseControl.body gateNext (gateEmit onAt volAt)
              (gateInv pnc0) N gate_body_step samples 0 pnc0)
    as (out & Hrun & Hout & Hnth).
  { lia. }
  { unfold gateInv. repeat split. lia. }
  assert (Hinv : forall n, (n <= N)%nat -> gateInv pnc0 n (after gateNext n pnc0)).
  { intros n Hn.
    apply (after_inv PinkNoiseControl.body gateNext (gateEmit onAt volAt)
             (gateInv pnc0) N gate_body_step n 0 pnc0); [lia |].
    unfold gateInv. repeat split. lia. }
  exists out. rewrite Hlen in *. split; [exact Hrun |]. split; [exact Hout |].
  split; [apply Hinv; lia |].
  intros n Hn. rewrite Hnth by lia.
  destruct (Hinv n ltac:(lia)) as (Hsr & Hpos & _ & _).
  unfold gateEmit. cbn [PinkNoiseControl.pos PinkNoiseControl.sr].
  rewrite Hsr, Hpos. reflexivity.
Qed.

End Gate.

(** One call of the gate around a pink-noise generator: the generator adds
    its next mono samples to the buffer, then every frame is zeroed or
    replaced by its scaled left channel. *)
Lemma gate_stream_cap (capacity : nat) (pnc : PinkNoiseControl.t PinkNoise.t)
      (onAt : R -> bool) (volAt : R -> R) (samples : list Frame) :
  (length samples <= capacity)%nat ->
  PinkNoiseControl.sr pnc <> 0%Z ->
  (0 <= PinkNoiseControl.pos pnc)%Z ->
  (PinkNoiseControl.pos pnc + Z.of_nat (length samples) <= maxInt)%Z ->
  (forall t, PinkNoiseControl.volumeFunc pnc t = Ok (onAt t, volAt t)) ->
  length (PinkNoise.white (PinkNoiseControl.stream pnc)) = 5%nat ->
  exists pnc' out noise,
    pinkSamples (PinkNoiseControl.stream pnc) (length samples)
    = Ok (noise, PinkNoiseControl.stream pnc')
    /\ length noise = length samples
    /\ PinkNoiseControl.StreamCap capacity pnc samples = Ok (pnc', out, length samples, true)
    /\ length out = length samples
    /\ PinkNoiseControl.pos pnc'
       = (PinkNoiseControl.pos pnc + Z.of_nat (length samples))%Z
    /\ length (PinkNoise.white (PinkNoiseControl.stream pnc')) = 5%nat
    /\ forall n, (n < length samples)%nat ->
                 nth n out (0, 0)
                 = if negb (onAt (IZR (PinkNoiseControl.pos pnc + Z.of_nat n)
                                  / IZR (PinkNoiseControl.sr pnc)))
                   then (0, 0)
                   else ((fst (nth n samples (0, 0)) + nth n noise 0)
                         * volAt (IZR (PinkNoiseControl.pos pnc + Z.of_nat n)
                                  / IZR (PinkNoiseControl.sr pnc)) * 0.5,
                         (fst (nth n samples (0, 0)) + nth n noise 0)
                         * volAt (IZR (PinkNoiseControl.pos pnc + Z.of_nat n)
                                  / IZR (PinkNoiseControl.sr pnc)) * 0.5).
Proof.
  intros Hcap Hsr Hlo Hhi Hv Hw.
  destruct (pinkSamples_ok (length samples) (PinkNoiseControl.stream pnc) Hw)
    as (noise & pn' & Hnoise & Hnl & Hw').
  pose proof (pink_stream_run samples _ _ _ Hnoise) as Hinner.
  pose proof (addMono_length samples noise Hnl) as Hal.
  set (pnc1 := {| PinkNoiseControl.stream := pn';
                  PinkNoiseControl.volumeFunc := PinkNoiseControl.volumeFunc pnc;
                  PinkNoiseControl.sr := PinkNoiseControl.sr pnc;
                  PinkNoiseControl.pos := PinkNoiseControl.pos pnc |}).
  destruct (gate_loop_run pnc1 onAt volAt (length samples) Hsr Hlo Hhi Hv
              (addMono samples noise) Hal)
    as (out & Hrun & Hout & (_ & Hpos & _ & Hst) & Hnth).
  exists (after gateNext (length samples) pnc1), out, noise.
  rewrite Hst. cbn [pnc1 PinkNoiseControl.stream].
  split; [exact Hnoise |]. split; [exact Hnl |]. split.
  - unfold PinkNoiseControl.StreamCap.
    change (Stream (PinkNoiseControl.stream pnc) samples)
      with (PinkNoise.Stream (PinkNoiseControl.stream pnc) samples).
    rewrite Hinner. cbn [bind]. fold pnc1.
    assert (Hfirst : firstn (length samples) (addMono samples noise)
                     = addMono samples noise)
      by (rewrite <- Hal; apply firstn_all).
    assert (Hskip : skipn (length samples) (addMono samples noise) = [])
      by (rewrite <- Hal; apply skipn_all).
    destruct (Nat.ltb_spec capacity (length samples)) as [Hlt | _]; [lia |].
    rewrite Hal, Nat.ltb_irrefl, Hfirst, Hskip.
    rewrite Hrun. cbn [bind ret fst snd]. rewrite app_nil_r. reflexivity.
  - split; [exact Hout |]. split; [exact Hpos |]. split; [exact Hw' |].
    intros n Hn. rewrite (Hnth n Hn). unfold gateEmit.
    cbn [pnc1 PinkNoiseControl.pos PinkNoiseControl.sr].
    rewrite (addMono_nth samples noise n Hnl Hn). cbn [fst]. reflexivity.
Qed.

(** The same on a buffer that fills its array. *)
Lemma gate_stream_run (pnc : PinkNoiseControl.t PinkNoise.t)
      (onAt : R -> bool) (volAt : R -> R) (samples : list Frame) :
  PinkNoiseControl.sr pnc <> 0%Z ->
  (0 <= PinkNoiseControl.pos pnc)%Z ->
  (PinkNoiseControl.pos pnc + Z.of_nat (length samples) <= maxInt)%Z ->
  (forall t, PinkNoiseControl.volumeFunc pnc t = Ok (onAt t, volAt t)) ->
  length (PinkNoise.white (PinkNoiseControl.stream pnc)) = 5%nat ->
  exists pnc' out noise,
    pinkSamples (PinkNoiseControl.stream pnc) (length samples)
    = Ok (noise, PinkNoiseControl.stream pnc')
    /\ length noise = length samples
    /\ PinkNoiseControl.Stream pnc samples = Ok (pnc', out, length samples, true)
    /\ length out = length samples
    /\ PinkNoiseControl.pos pnc'
       = (PinkNoiseControl.pos pnc + Z.of_nat (length samples))%Z
    /\ length (PinkNoise.white (PinkNoiseControl.stream pnc')) = 5%nat
    /\ forall n, (n < length samples)%nat ->
                 nth n out (0, 0)
                 = if negb (onAt (IZR (PinkNoiseControl.pos pnc + Z.of_nat n)
                                  / IZR (PinkNoiseControl.sr pnc)))
                   then (0, 0)
                   else ((fst (nth n samples (0, 0)) + nth n noise 0)
                         * volAt (IZR (PinkNoiseControl.pos pnc + Z.of_nat n)
                                  / IZR (PinkNoiseControl.sr pnc)) * 0.5,
                         (fst (nth n samples (0, 0)) + nth n noise 0)
                         * volAt (IZR (PinkNoiseControl.pos pnc + Z.of_nat n)
                                  / IZR (PinkNoiseControl.sr pnc)) * 0.5).
Proof.
  intros Hsr Hlo Hhi Hv Hw.
  apply (gate_stream_cap (length samples) pnc onAt volAt samples (le_n _)
           Hsr Hlo Hhi Hv Hw).
Qed.

End NoiseFacts.

Module NoiseGateSpec.

Import Player Shape Signal Scenarios StreamFacts ScheduleFacts NoiseFacts.

(** A noise query on a non-empty slice returns the settings of one of its
    breakpoints. *)
Lemma noise_from_breakpoint (changes : list ConfigFrequencyChange) (t : R) :
  changes <> [] ->
  exists i, (i < length changes)%nat
            /\ createPinkNoiseFunc changes t
               = Ok (PinkNoiseOn (changeAt changes i),
                     PinkNoiseVolume (changeAt changes i)).
Proof.
  intros Hne. rewrite createPinkNoiseFunc_scan.
  assert (Hlen : (0 < length changes)%nat)
    by (destruct changes; [contradiction | cbn; lia]).
  destruct (scan_cases (false, 0) noiseOf step changes t Hne)
    as [H | [H | (i & Hi & _ & H)]]; rewrite H.
  - exists 0%nat. split; [lia | reflexivity].
  - exists (length changes - 1)%nat. split; [lia | reflexivity].
  - exists i. split; [lia | reflexivity].
Qed.

(** The noise query of [main]'s gate returns a value at every time. *)
Lemma gate_volume_total (changes : list ConfigFrequencyChange) (t : R) :
  createPinkNoiseFunc changes t
  = Ok (fst (noiseValueOf (createPinkNoiseFunc changes t)),
        snd (noiseValueOf (createPinkNoiseFunc changes t))).
Proof.
  destruct (ScheduleSpec.queries_total changes t) as (_ & _ & _ & (nz & E)).
  rewrite E. cbn [noiseValueOf]. destruct nz. reflexivity.
Qed.

(** With the schedule [noisy] the noise is on at volume 1 at every time. *)
Lemma noisy_always_on (t : R) : createPinkNoiseFunc noisy t = Ok (true, 1).
Proof.
  destruct (noise_from_breakpoint noisy t) as (i & Hi & H); [discriminate |].
  rewrite H. cbn in Hi.
  assert (Hc : (i = 0 \/ i = 1)%nat) by lia.
  destruct Hc as [-> | ->]; reflexivity.
Qed.

(** The first mono sample of a fresh generator on [halfSource]. *)
Lemma halfSource_first :
  exists pn1,
    pinkSamples (PinkNoise.NewPinkNoise halfSource) 1
    = Ok ([(0.5 * 2 - 1 + 0 + 0 + 0 + 0) * 0.1], pn1).
Proof. eexists. reflexivity. Qed.

(** C8. The code breaks the claim.  For a frame passing through the noise
    gate with the noise on at volume [v], the claim gives both channels the
    pink-noise sample [p] scaled by [v * 0.5].  [PinkNoise.Stream] writes its
    sample with [+=], so what the frame held before the call stays in the
    left channel and [PinkNoiseControl.Stream] scales it along with the
    noise.  Here the gate of [main] runs on the schedule [noisy] (noise on at
    volume 1) with a source whose first sample is [p = 0], on a buffer whose
    one frame holds 1 in its left channel, as a buffer that a tone has
    written to does: both output channels are 0.5, where the claim gives
    [0 * 1 * 0.5 = 0]. *)
Lemma gate_scales_what_the_buffer_held :
  exists pnc' out noise,
    pinkSamples (PinkNoise.NewPinkNoise halfSource) 1
    = Ok (noise, PinkNoiseControl.stream pnc')
    /\ nth 0 noise 0 = 0
    /\ createPinkNoiseFunc noisy (IZR 0 / IZR 44100) = Ok (true, 1)
    /\ PinkNoiseControl.Stream (pinkNoiseControl noisy halfSource) [(1, 0)]
       = Ok (pnc', out, 1%nat, true)
    /\ nth 0 out (0, 0) = (0.5, 0.5)
    /\ nth 0 out (0, 0) <> (nth 0 noise 0 * 1 * 0.5, nth 0 noise 0 * 1 * 0.5).
Proof.
  destruct (gate_stream_run (pinkNoiseControl noisy halfSource)
              (fun _ => true) (fun _ => 1) [(1, 0)])
    as (pnc' & out & noise & Hnoise & _ & Hrun & _ & _ & _ & Hnth).
  - discriminate.
  - cbn. lia.
  - unfold maxInt. cbn. lia.
  - intros t. apply noisy_always_on.
  - reflexivity.
  - destruct halfSource_first as (pn1 & Hfirst).
    cbn [pinkNoiseControl PinkNoiseControl.stream length] in Hnoise.
    rewrite Hfirst in Hnoise. injection Hnoise as Hn Hst.
    specialize (Hnth 0%nat ltac:(cbn; lia)).
    cbn [negb nth fst] in Hnth. rewrite <- Hn in Hnth. cbn [nth] in Hnth.
    exists pnc', out, noise. rewrite <- Hn. cbn [nth].
    split; [rewrite <- Hst; exact Hfirst |]. split; [lra |].
    split; [apply noisy_always_on |]. split; [exact Hrun |].
    rewrite Hnth. split.
    + f_equal; lra.
    + intros H. injection H as H _. lra.
Qed.

End NoiseGateSpec.

(** ** Start-up: total playback time and the fatal exit *)

Module StartupSpec.

Import Player Shape Signal Scenarios.

Lemma running_maximum (l : list ConfigFrequencyChange) :
  forall a,
    let r := fold_left
               (fun maxTime change =>
                  if Time change >? maxTime then Time change else maxTime)
               l a in
    a <= r
    /\ Forall (fun x => x <= r) (map Time l)
    /\ (r = a \/ In r (map Time l)).
Proof.
  induction l as [| c l IH]; intros a; cbn zeta.
  - cbn. split; [lra |]. split; [constructor | left; reflexivity].
  - cbn [fold_left map].
    destruct (IH (if Time c >? a then Time c else a)) as (Hle & Hall & Hin).
    cbn zeta in Hle, Hall, Hin.
    assert (Hstep : a <= (if Time c >? a then Time c else a)
                    /\ Time c <= (if Time c >? a then Time c else a)).
    { unfold fgt. destruct (Rgt_dec (Time c) a); lra. }
    split; [lra |]. split.
    + constructor; [lra | exact Hall].
    + destruct Hin as [Hin | Hin].
      * rewrite Hin. unfold fgt. destruct (Rgt_dec (Time c) a).
        -- right. left. reflexivity.
        -- left. reflexivity.
      * right. right. exact Hin.
Qed.

Lemma isMaximum_unique (m m' : R) (l : list R) :
  isMaximum m l -> isMaximum m' l -> m = m'.
Proof.
  intros [Hin Hall] [Hin' Hall'].
  rewrite Forall_forall in Hall, Hall'.
  specialize (Hall m' Hin'). specialize (Hall' m Hin). lra.
Qed.

(** [getTotalPlaybackTime] is 0 on the empty slice and the largest time of
    a non-empty one. *)
Lemma getTotalPlaybackTime_spec (changes : list ConfigFrequencyChange) :
  exists total,
    getTotalPlaybackTime changes = Ok total
    /\ (changes = [] -> total = 0)
    /\ (changes <> [] -> isMaximum total (map Time changes)).
Proof.
  destruct changes as [| c cs].
  - exists 0. split; [reflexivity |]. split; [reflexivity |].
    intros Hne. contradiction.
  - eexists. split; [reflexivity |]. split; [discriminate |].
    intros _.
    destruct (running_maximum (c :: cs) (Time c)) as (Hle & Hall & Hin).
    cbn zeta in Hle, Hall, Hin. split; [| exact Hall].
    destruct Hin as [Hin | Hin]; [| exact Hin].
    rewrite Hin. left. reflexivity.
Qed.

(** C9. [main] builds the streamers only when the breakpoint sequence is
    non-empty and its largest time, after the stretch factor has been
    applied, is not 0: on an empty sequence and on a sequence whose largest
    time is 0 it stops with the fatal configuration error and builds nothing;
    [getTotalPlaybackTime] returns 0 for exactly those inputs. *)
Theorem zero_duration_is_fatal (stretchFactor : R)
        (parsed : list ConfigFrequencyChange) (source : PinkNoise.Rand) :
  let changes := map (stretch stretchFactor) parsed in
  exists total,
    getTotalPlaybackTime changes = Ok total
    /\ (parsed = [] -> total = 0)
    /\ (parsed <> [] -> isMaximum total (map Time changes))
    /\ (total = 0 <-> parsed = [] \/ isMaximum 0 (map Time changes))
    /\ (total = 0 ->
        main stretchFactor parsed source
        = Ok (Fatal "Total playback time is zero. Check your configuration."))
    /\ (total <> 0 ->
        main stretchFactor parsed source
        = Ok (Playing (leftTone changes) (rightTone changes)
                      (pinkNoiseControl changes source)))
    /\ (forall l r g,
           main stretchFactor parsed source = Ok (Playing l r g) ->
           parsed <> []
           /\ exists m, isMaximum m (map Time changes) /\ m <> 0).
Proof.
  intros changes.
  destruct (getTotalPlaybackTime_spec changes) as (total & Htotal & Hempty & Hmax).
  assert (Hnil : parsed = [] <-> changes = []).
  { unfold changes. destruct parsed; cbn; split; intros H;
      try reflexivity; discriminate. }
  assert (Hzero : total = 0 <-> parsed = [] \/ isMaximum 0 (map Time changes)).
  { split.
    - intros Hz. destruct parsed as [| c cs]; [left; reflexivity |].
      right. rewrite <- Hz. apply Hmax. unfold changes. discriminate.
    - intros [Hp | Hm].
      + apply Hempty. apply Hnil. exact Hp.
      + destruct parsed as [| c cs].
        * apply Hempty. reflexivity.
        * apply (isMaximum_unique total 0 (map Time changes));
            [apply Hmax; unfold changes; discriminate | exact Hm]. }
  exists total.
  split; [exact Htotal |].
  split; [intros Hp; apply Hempty; apply Hnil; exact Hp |].
  split; [intros Hp; apply Hmax; intros Hc; apply Hp; apply Hnil; exact Hc |].
  split; [exact Hzero |].
  unfold main. fold changes. rewrite Htotal. cbn [bind].
  split; [| split].
  - intros Hz. rewrite feq_true by exact Hz. reflexivity.
  - intros Hz. rewrite feq_false by exact Hz. reflexivity.
  - intros l r g Hrun.
    destruct (Req_dec_T total 0) as [Hz | Hz].
    + rewrite feq_true in Hrun by exact Hz. discriminate.
    + assert (Hp : parsed <> []).
      { intros Hp. apply Hz. apply Hzero. left. exact Hp. }
      split; [exact Hp |].
      exists total. split; [| exact Hz].
      apply Hmax. intros Hc. apply Hp. apply Hnil. exact Hc.
Qed.

End StartupSpec.

(** ** From the converter's output to the player's noise gate *)

Module ConverterSpec.

Import Player Shape Signal Scenarios ScheduleFacts NoiseFacts.

Lemma unmarshal_marshal (fc : Converter.FrequencyChange) :
  unmarshalChange (Converter.marshalChange fc) = Some (asLoaded fc).
Proof. reflexivity. Qed.

Lemma unmarshalChanges_marshal (fcs : list Converter.FrequencyChange) :
  unmarshalChanges (map Converter.marshalChange fcs) = Some (map asLoaded fcs).
Proof.
  induction fcs as [| fc fcs IH]; [reflexivity |].
  cbn [map unmarshalChanges]. rewrite unmarshal_marshal, IH. reflexivity.
Qed.

Lemma loaded_noise_off (fcs : list Converter.FrequencyChange) :
  Forall (fun c => PinkNoiseOn c = false) (map asLoaded fcs).
Proof.
  apply Forall_forall. intros c Hc. apply in_map_iff in Hc as (fc & <- & _).
  reflexivity.
Qed.

(** A slice whose breakpoints all have the noise flag off answers every
    noise query with "off". *)
Lemma noise_off_everywhere (changes : list ConfigFrequencyChange) (t : R) :
  Forall (fun c => PinkNoiseOn c = false) changes ->
  exists vol, createPinkNoiseFunc changes t = Ok (false, vol).
Proof.
  intros Hoff. destruct changes as [| c cs].
  - exists 0. reflexivity.
  - destruct (NoiseGateSpec.noise_from_breakpoint (c :: cs) t) as (i & Hi & H);
      [discriminate |].
    rewrite H. rewrite Forall_forall in Hoff.
    rewrite (Hoff (changeAt (c :: cs) i)) by (apply nth_In; exact Hi).
    eexists. reflexivity.
Qed.

Lemma stretch_keeps_noise_off (stretchFactor : R)
      (cfg : list ConfigFrequencyChange) :
  Forall (fun c => PinkNoiseOn c = false) cfg ->
  Forall (fun c => PinkNoiseOn c = false) (map (stretch stretchFactor) cfg).
Proof.
  intros H. apply Forall_forall. intros c Hc.
  apply in_map_iff in Hc as (c0 & <- & Hin).
  rewrite Forall_forall in H. exact (H c0 Hin).
Qed.

(** C10. A record of the converter has no noise flag, and the YAML it writes
    has no [pink_noise_on] key.  So for every configuration the converter
    produces, whatever the pink-noise volumes in it, the player loads
    breakpoints that all have [PinkNoiseOn = false]; the noise query is
    "off" at every time, and every frame that leaves the noise gate is
    [(0, 0)]. *)
Theorem converted_schedule_is_silent
        (splitColon : string -> list string) (Atoi : string -> option Z)
        (timeSeqRegex : string -> option (string * string))
        (sortC : list Converter.FrequencyChange -> list Converter.FrequencyChange)
        (toneSets : string -> option Converter.ToneSet)
        (timeSequence : list string) (doc : list Yaml.mapping)
        (sortP : list ConfigFrequencyChange -> list ConfigFrequencyChange)
        (stretchFactor : R) (source : PinkNoise.Rand) (samples : list Frame) :
  Converter.convert splitColon Atoi timeSeqRegex sortC toneSets timeSequence
  = inr doc ->
  (forall l, Permutation l (sortP l)) ->
  (Z.of_nat (length samples) <= maxInt)%Z ->
  exists fcs cfg,
    Converter.convertToFrequencyChanges splitColon Atoi timeSeqRegex
                                        toneSets timeSequence = inr fcs
    /\ doc = map Converter.marshalChange (sortC fcs)
    /\ Forall (fun m => Yaml.lookup "pink_noise_on" m = None) doc
    /\ parseConfig sortP doc = Some cfg
    /\ Permutation (map asLoaded (sortC fcs)) cfg
    /\ Forall (fun c => PinkNoiseOn c = false) cfg
    /\ (forall t, exists vol,
           createPinkNoiseFunc (map (stretch stretchFactor) cfg) t
           = Ok (false, vol))
    /\ (forall l r g,
           main stretchFactor cfg source = Ok (Playing l r g) ->
           g = pinkNoiseControl (map (stretch stretchFactor) cfg) source)
    /\ exists pnc' out,
         PinkNoiseControl.Stream
           (pinkNoiseControl (map (stretch stretchFactor) cfg) source) samples
         = Ok (pnc', out, length samples, true)
         /\ length out = length samples
         /\ Forall (fun fr => fr = (0, 0)) out.
Proof.
  intros Hconv Hsort Hlen.
  unfold Converter.convert in Hconv.
  destruct (Converter.convertToFrequencyChanges splitColon Atoi timeSeqRegex
              toneSets timeSequence) as [e | fcs]; [discriminate |].
  injection Hconv as <-.
  exists fcs, (sortP (map asLoaded (sortC fcs))).
  assert (Hoff : Forall (fun c => PinkNoiseOn c = false)
                        (sortP (map asLoaded (sortC fcs)))).
  { apply (Permutation_Forall (Hsort _)). apply loaded_noise_off. }
  pose proof (stretch_keeps_noise_off stretchFactor _ Hoff) as Hoff'.
  split; [reflexivity |]. split; [reflexivity |]. split.
  { apply Forall_forall. intros m Hm. apply in_map_iff in Hm as (fc & <- & _).
    reflexivity. }
  split.
  { unfold parseConfig. rewrite unmarshalChanges_marshal. reflexivity. }
  split; [apply Hsort |]. split; [exact Hoff |]. split.
  { intros t. apply noise_off_everywhere. exact Hoff'. }
  split.
  { intros l r g. unfold main.
    destruct (getTotalPlaybackTime _) as [total |]; cbn [bind]; [| discriminate].
    destruct (feq total 0); cbn [ret]; [discriminate |].
    intros H. injection H as _ _ <-. reflexivity. }
  set (changes := map (stretch stretchFactor) (sortP (map asLoaded (sortC fcs)))) in *.
  destruct (gate_stream_run (pinkNoiseControl changes source)
              (fun t => fst (noiseValueOf (createPinkNoiseFunc changes t)))
              (fun t => snd (noiseValueOf (createPinkNoiseFunc changes t)))
              samples)
    as (pnc' & out & noise & _ & _ & Hrun & Hout & _ & _ & Hnth).
  - discriminate.
  - cbn. lia.
  - cbn. exact Hlen.
  - intros t. apply NoiseGateSpec.gate_volume_total.
  - reflexivity.
  - exists pnc', out. split; [exact Hrun |]. split; [exact Hout |].
    apply Forall_forall. intros fr Hfr.
    destruct (In_nth out fr (0, 0) Hfr) as (n & Hn & <-).
    rewrite Hnth by lia.
    cbn [pinkNoiseControl PinkNoiseControl.pos PinkNoiseControl.sr].
    destruct (noise_off_everywhere changes (IZR (0 + Z.of_nat n) / IZR 44100) Hoff')
      as (vol & E).
    rewrite E. reflexivity.
Qed.

(** The one-line session of [Scenarios]: the converted breakpoint carries
    the noise volume 0.4, and the gate still returns silence. *)
Lemma converted_schedule_is_silent_witness :
  Converter.convert (fun _ => []) (fun _ => None) sbagenRegex (fun l => l)
                    sbagenToneSets sbagenSequence
  = inr [Converter.marshalChange (Converter.mkFrequencyChange 0 300 10 0.4 0.6)]
  /\ (forall l : list ConfigFrequencyChange, Permutation l ((fun l => l) l))
  /\ (Z.of_nat (length twoFrames) <= maxInt)%Z
  /\ exists cfg,
       parseConfig (fun l => l)
                   [Converter.marshalChange
                      (Converter.mkFrequencyChange 0 300 10 0.4 0.6)]
       = Some cfg
       /\ map PinkNoiseVolume cfg = [0.4]
       /\ exists pnc' out,
            PinkNoiseControl.Stream
              (pinkNoiseControl (map (stretch 1) cfg) halfSource)
              twoFrames
            = Ok (pnc', out, 2%nat, true)
            /\ Forall (fun fr => fr = (0, 0)) out.
Proof.
  assert (H1 : Converter.convert (fun _ => []) (fun _ => None) sbagenRegex
                 (fun l => l) sbagenToneSets sbagenSequence
               = inr [Converter.marshalChange
                        (Converter.mkFrequencyChange 0 300 10 0.4 0.6)])
    by reflexivity.
  assert (H2 : forall l : list ConfigFrequencyChange, Permutation l ((fun l => l) l))
    by (intros l; apply Permutation_refl).
  assert (H3 : (Z.of_nat (length twoFrames) <= maxInt)%Z)
    by (unfold maxInt; cbn; lia).
  split; [exact H1 |]. split; [exact H2 |]. split; [exact H3 |].
  destruct (converted_schedule_is_silent _ _ _ _ _ _ _ (fun l => l) 1 halfSource
              twoFrames H1 H2 H3)
    as (fcs & cfg & _ & _ & _ & Hparse & _ & _ & _ & _ & pnc' & out & Hrun & _ & Hz).
  exists cfg. split; [exact Hparse |]. split.
  - cbn in Hparse. injection Hparse as <-. reflexivity.
  - exists pnc', out. split; [exact Hrun | exact Hz].
Defined.

End ConverterSpec.

(** ** Further laws of the schedule query functions *)

Module ScheduleLaws.

Import Player Shape Signal Scenarios ScheduleFacts.

(** Between a time at or below [t] and a later time above [t] there is a
    first interval that contains [t], whatever the order of the times. *)
Lemma first_interval (changes : list ConfigFrequencyChange) (t : R) :
  forall n i0,
    timeAt changes i0 <= t -> t < timeAt changes (i0 + n) ->
    exists i, (i0 <= i < i0 + n)%nat
              /\ (forall j, (i0 <= j < i)%nat ->
                            ~ (timeAt changes j <= t < timeAt changes (j + 1)))
              /\ timeAt changes i <= t < timeAt changes (i + 1).
Proof.
  induction n as [| n IH]; intros i0 Hlo Hhi.
  - replace (i0 + 0)%nat with i0 in Hhi by lia. lra.
  - destruct (Rlt_dec t (timeAt changes (i0 + 1))) as [Hlt | Hge].
    + exists i0. split; [lia |]. split; [intros j Hj; lia | lra].
    + destruct (IH (i0 + 1)%nat) as (i & Hi & Hmiss & Hin).
      * lra.
      * replace (i0 + 1 + n)%nat with (i0 + S n)%nat by lia. exact Hhi.
      * exists i. split; [lia |]. split; [| exact Hin].
        intros j Hj. destruct (Nat.eq_dec j i0) as [-> | Hne].
        -- lra.
        -- apply Hmiss. lia.
Qed.

(** X1. For every breakpoint slice, sorted or not, and every [t] strictly
    between the first and the last breakpoint's time, the four query
    functions answer from one and the same interval [[time_i, time_{i+1})]
    that contains [t]: the statement after the search loop is never
    reached. *)
Theorem interior_query_always_interpolates
        (changes : list ConfigFrequencyChange) (t : R) :
  changes <> [] ->
  timeAt changes 0 < t ->
  t < timeAt changes (length changes - 1) ->
  exists i,
    (i + 1 < length changes)%nat
    /\ timeAt changes i <= t < timeAt changes (i + 1)
    /\ createFreqFunc changes t = Ok (linearValue Frequency changes i t)
    /\ createBeatFreqFunc changes t = Ok (linearValue BeatFrequency changes i t)
    /\ createVolumeFunc changes t = Ok (linearValue ToneVolume changes i t)
    /\ createPinkNoiseFunc changes t
       = Ok (PinkNoiseOn (changeAt changes i), PinkNoiseVolume (changeAt changes i)).
Proof.
  intros Hne Hlo Hhi.
  destruct (first_interval changes t (length changes - 1) 0) as (i & Hi & Hmiss & Hin).
  - lra.
  - exact Hhi.
  - assert (Hlen : (i + 1 < length changes)%nat) by lia.
    exists i. split; [exact Hlen |]. split; [exact Hin |].
    rewrite createFreqFunc_scan, createBeatFreqFunc_scan, createVolumeFunc_scan,
      createPinkNoiseFunc_scan.
    rewrite !(scan_hit _ _ _ changes t i Hlen Hlo Hhi)
      by (try exact Hin; intros j Hj; apply Hmiss; lia).
    unfold linearValue, timeAt in *. rewrite !lerp_ok by lra.
    repeat split; reflexivity.
Qed.

(** A slice that is not in time order: breakpoints at 0, 8, 4 and 10. *)
Lemma interior_query_always_interpolates_witness :
  let changes := [mkChange 0 100 1 false 0 0.1; mkChange 8 200 2 true 0.2 0.2;
                  mkChange 4 400 4 false 0.4 0.4; mkChange 10 800 8 true 0.8 0.8] in
  changes <> []
  /\ timeAt changes 0 < 6
  /\ 6 < timeAt changes (length changes - 1)
  /\ exists i, (i + 1 < length changes)%nat
               /\ createFreqFunc changes 6 = Ok (linearValue Frequency changes i 6).
Proof.
  intros changes.
  assert (H1 : changes <> []) by discriminate.
  assert (H2 : timeAt changes 0 < 6) by breakpoint_times.
  assert (H3 : 6 < timeAt changes (length changes - 1)) by breakpoint_times.
  split; [exact H1 |]. split; [exact H2 |]. split; [exact H3 |].
  destruct (interior_query_always_interpolates changes 6 H1 H2 H3)
    as (i & Hi & _ & Hf & _).
  exists i. split; [exact Hi | exact Hf].
Defined.

(** X3. On a slice with strictly increasing times every query at a
    breakpoint's own time returns that breakpoint's values: the linear
    functions pass through the configured points, and the noise settings of
    a breakpoint apply from its own time on. *)
Theorem queries_pass_through_breakpoints
        (changes : list ConfigFrequencyChange) (i : nat) :
  strictlyIncreasing changes ->
  (i < length changes)%nat ->
  createFreqFunc changes (timeAt changes i) = Ok (Frequency (changeAt changes i))
  /\ createBeatFreqFunc changes (timeAt changes i)
     = Ok (BeatFrequency (changeAt changes i))
  /\ createVolumeFunc changes (timeAt changes i)
     = Ok (ToneVolume (changeAt changes i))
  /\ createPinkNoiseFunc changes (timeAt changes i)
     = Ok (PinkNoiseOn (changeAt changes i), PinkNoiseVolume (changeAt changes i)).
Proof.
  intros Hs Hi.
  assert (Hne : changes <> []) by (destruct changes; [cbn in Hi; lia | discriminate]).
  assert (Hnd : nonDecreasing changes) by (apply strictlyIncreasing_nonDecreasing; exact Hs).
  destruct (Nat.eq_dec i 0) as [-> | Hi0].
  { apply ScheduleSpec.clamp_low; [exact Hne | lra]. }
  assert (Hlo : timeAt changes 0 < timeAt changes i)
    by (apply strictlyIncreasing_lt; [exact Hs | lia | exact Hi]).
  destruct (Nat.eq_dec i (length changes - 1)) as [Hlast | Hnl].
  { rewrite Hlast at 2 4 6 8 9.
    apply ScheduleSpec.clamp_high; [exact Hne | exact Hlo | rewrite <- Hlast; lra]. }
  assert (Hi1 : (i + 1 < length changes)%nat) by lia.
  assert (Hin : timeAt changes i <= timeAt changes i < timeAt changes (i + 1)).
  { split; [lra |]. apply Hs. exact Hi1. }
  destruct (ScheduleSpec.linear_interval changes i (timeAt changes i) Hnd Hi1 Hlo Hin)
    as (Hf & Hb & Hv).
  assert (Hval : forall field, linearValue field changes i (timeAt changes i)
                               = field (changeAt changes i)).
  { intros field. unfold linearValue, Rdiv. rewrite Rminus_diag. ring. }
  rewrite Hf, Hb, Hv, !Hval.
  repeat split.
  rewrite createPinkNoiseFunc_scan.
  rewrite (scan_interval _ _ _ changes i _ Hnd Hi1 Hlo Hin). reflexivity.
Qed.

(** The tie-free slice of the scenario at its second breakpoint. *)
Lemma queries_pass_through_breakpoints_witness :
  strictlyIncreasing scenario
  /\ (1 < length scenario)%nat
  /\ createFreqFunc scenario (timeAt scenario 1) = Ok 150
  /\ createPinkNoiseFunc scenario (timeAt scenario 1) = Ok (false, 0).
Proof.
  assert (Hs : strictlyIncreasing scenario).
  { intros j Hj. cbn in Hj. assert (j = 0)%nat by lia. subst j. breakpoint_times. }
  assert (Hi : (1 < length scenario)%nat) by (cbn; lia).
  split; [exact Hs |]. split; [exact Hi |]. split.
  - exact (proj1 (queries_pass_through_breakpoints scenario 1 Hs Hi)).
  - exact (proj2 (proj2 (proj2 (queries_pass_through_breakpoints scenario 1 Hs Hi)))).
Defined.

End ScheduleLaws.

(** ** Further laws of the total playback time *)

Module StartupLaws.

Import Player Shape Signal Scenarios ScheduleFacts.

Lemma total_determined (changes : list ConfigFrequencyChange) (m : R) :
  changes <> [] -> isMaximum m (map Time changes) ->
  getTotalPlaybackTime changes = Ok m.
Proof.
  intros Hne Hm.
  destruct (StartupSpec.getTotalPlaybackTime_spec changes) as (total & Ht & _ & Hmax).
  rewrite Ht. f_equal.
  apply (StartupSpec.isMaximum_unique total m (map Time changes));
    [apply Hmax; exact Hne | exact Hm].
Qed.

(** X5. The total playback time does not depend on the order of the
    breakpoints: two slices that are permutations of each other have the same
    total. *)
Theorem total_time_ignores_order (l l' : list ConfigFrequencyChange) :
  Permutation l l' ->
  getTotalPlaybackTime l = getTotalPlaybackTime l'.
Proof.
  intros Hp. destruct l as [| c cs].
  - apply Permutation_nil in Hp. subst l'. reflexivity.
  - assert (Hne' : l' <> []).
    { intros ->. apply Permutation_sym, Permutation_nil in Hp. discriminate. }
    destruct (StartupSpec.getTotalPlaybackTime_spec (c :: cs))
      as (total & Ht & _ & Hmax).
    rewrite Ht. symmetry. apply total_determined; [exact Hne' |].
    destruct (Hmax ltac:(discriminate)) as [Hin Hall].
    pose proof (Permutation_map Time Hp) as Hpm.
    split.
    + apply (Permutation_in _ Hpm). exact Hin.
    + apply (Permutation_Forall Hpm). exact Hall.
Qed.

(** The scenario and its reverse. *)
Lemma total_time_ignores_order_witness :
  Permutation scenario (rev scenario)
  /\ getTotalPlaybackTime scenario = getTotalPlaybackTime (rev scenario).
Proof.
  assert (H : Permutation scenario (rev scenario)) by apply Permutation_rev.
  split; [exact H |].
  exact (total_time_ignores_order scenario (rev scenario) H).
Defined.

(** X6. A non-negative stretch factor scales the total playback time: the
    total of the stretched slice is the total of the original slice times
    the factor.  In particular a stretch factor of 0 makes [main] stop with
    the fatal error for every configuration. *)
Theorem stretch_scales_total (parsed : list ConfigFrequencyChange) (s : R)
        (source : PinkNoise.Rand) :
  0 <= s ->
  (exists total,
      getTotalPlaybackTime parsed = Ok total
      /\ getTotalPlaybackTime (map (stretch s) parsed) = Ok (total * s))
  /\ (s = 0 ->
      main s parsed source
      = Ok (Fatal "Total playback time is zero. Check your configuration.")).
Proof.
  intros Hs.
  assert (G : exists total,
             getTotalPlaybackTime parsed = Ok total
             /\ getTotalPlaybackTime (map (stretch s) parsed) = Ok (total * s)).
  { destruct (StartupSpec.getTotalPlaybackTime_spec parsed)
      as (total & Ht & Hempty & Hmax).
    exists total. split; [exact Ht |].
    destruct parsed as [| c cs].
    - rewrite (Hempty eq_refl). cbn. unfold ret. f_equal. ring.
    - apply total_determined; [discriminate |].
      destruct (Hmax ltac:(discriminate)) as [Hin Hall].
      rewrite map_map.
      replace (map (fun c0 => Time (stretch s c0)) (c :: cs))
        with (map (fun x => x * s) (map Time (c :: cs)))
        by (rewrite map_map; reflexivity).
      split.
      + apply (in_map (fun x => x * s) _ total). exact Hin.
      + apply Forall_forall. intros x Hx.
        apply in_map_iff in Hx as (y & <- & Hy).
        rewrite Forall_forall in Hall. specialize (Hall y Hy). nra. }
  split; [exact G |].
  intros ->. destruct G as (total & _ & Ht).
  unfold main. rewrite Ht. cbn [bind].
  rewrite feq_true by lra. reflexivity.
Qed.

(** The scenario at double length lasts twenty seconds. *)
Lemma stretch_scales_total_witness :
  0 <= 2
  /\ exists total,
       getTotalPlaybackTime scenario = Ok total
       /\ getTotalPlaybackTime (map (stretch 2) scenario) = Ok (total * 2).
Proof.
  assert (H : 0 <= 2) by lra.
  split; [exact H |].
  exact (proj1 (stretch_scales_total scenario 2 halfSource H)).
Defined.

(** X7. On a non-empty slice whose times do not decrease, as [parseConfig]
    leaves it, the total playback time is the time of the last
    breakpoint. *)
Theorem total_time_is_last_time (changes : list ConfigFrequencyChange) :
  changes <> [] ->
  nonDecreasing changes ->
  getTotalPlaybackTime changes = Ok (timeAt changes (length changes - 1)).
Proof.
  intros Hne Hnd.
  assert (Hlen : (0 < length changes)%nat)
    by (destruct changes; [contradiction | cbn; lia]).
  apply total_determined; [exact Hne |]. split.
  - unfold timeAt, changeAt. apply in_map. apply nth_In. lia.
  - apply Forall_forall. intros x Hx.
    apply in_map_iff in Hx as (c & <- & Hc).
    destruct (In_nth changes c zeroChange Hc) as (j & Hj & <-).
    apply (nonDecreasing_le changes Hnd j (length changes - 1)); lia.
Qed.

(** The scenario ends at its second breakpoint, at ten seconds. *)
Lemma total_time_is_last_time_witness :
  scenario <> []
  /\ nonDecreasing scenario
  /\ getTotalPlaybackTime scenario = Ok 10.
Proof.
  assert (H1 : scenario <> []) by discriminate.
  assert (H2 : nonDecreasing scenario).
  { intros j Hj. cbn in Hj. assert (j = 0)%nat by lia. subst j. breakpoint_times. }
  split; [exact H1 |]. split; [exact H2 |].
  exact (total_time_is_last_time scenario H1 H2).
Defined.

End StartupLaws.

(** ** Further laws of the oscillator *)

Module OscillatorLaws.

Import Player Shape Signal Scenarios StreamFacts ScheduleFacts.

(** The frames one call of [Stream] returns, in terms of [phaseAfter]. *)
Lemma tone_frames (vt : VariableTone.t) (freqAt volAt : R -> R)
      (samples : list Frame) :
  VariableTone.sr vt <> 0%Z ->
  (0 <= VariableTone.pos vt)%Z ->
  (VariableTone.pos vt + Z.of_nat (length samples) <= maxInt)%Z ->
  (forall t, VariableTone.freqFunc vt t = Ok (freqAt t)) ->
  (forall t, VariableTone.volumeFunc vt t = Ok (volAt t)) ->
  exists vt' out,
    VariableTone.Stream vt samples = Ok (vt', out, length samples, true)
    /\ length out = length samples
    /\ VariableTone.phase vt'
       = phaseAfter freqAt (VariableTone.sr vt) (VariableTone.pos vt)
                    (VariableTone.phase vt) (length samples)
    /\ forall n, (n < length samples)%nat ->
         nth n out (0, 0)
         = toneEmit freqAt volAt
             {| VariableTone.sr := VariableTone.sr vt;
                VariableTone.pos := (VariableTone.pos vt + Z.of_nat n)%Z;
                VariableTone.phase :=
                  phaseAfter freqAt (VariableTone.sr vt) (VariableTone.pos vt)
                             (VariableTone.phase vt) n;
                VariableTone.freqFunc := VariableTone.freqFunc vt;
                VariableTone.volumeFunc := VariableTone.volumeFunc vt;
                VariableTone.channel := VariableTone.channel vt |}
             (nth n samples (0, 0)).
Proof.
  intros Hsr Hlo Hhi Hf Hv.
  destruct (OscillatorSpec.tone_stream_run vt freqAt volAt (length samples)
              Hsr Hlo Hhi Hf Hv samples eq_refl)
    as (out & Hrun & Hlen & (_ & _ & Eph & _) & Hnth).
  exists (after (toneNext freqAt) (length samples) vt), out.
  split; [exact Hrun |]. split; [exact Hlen |]. split; [exact Eph |].
  intros n Hn.
  destruct (Hnth n Hn) as ((Esr & Epos & Eph' & _ & _ & Ech) & Hfr).
  rewrite Hfr.
  generalize dependent (after (toneNext freqAt) n vt). intros st Esr Epos Eph' Ech _.
  unfold toneEmit, toneNext.
  cbn [VariableTone.phase VariableTone.pos VariableTone.sr VariableTone.channel].
  rewrite Esr, Epos, Eph', Ech. reflexivity.
Qed.





(** X10. The two oscillators [main] builds never fail, for any schedule and
    any buffer: no query leaves the slice and nothing divides by zero.  The
    left oscillator writes only the left channel and the right oscillator only
    the right one. *)
Theorem main_tones_never_fail
        (changes : list ConfigFrequencyChange) (samples : list Frame) :
  (Z.of_nat (length samples) <= maxInt)%Z ->
  exists vl outl vr outr,
    VariableTone.Stream (leftTone changes) samples
    = Ok (vl, outl, length samples, true)
    /\ VariableTone.Stream (rightTone changes) samples
       = Ok (vr, outr, length samples, true)
    /\ length outl = length samples
    /\ length outr = length samples
    /\ (forall n, (n < length samples)%nat ->
          snd (nth n outl (0, 0)) = snd (nth n samples (0, 0))
          /\ fst (nth n outr (0, 0)) = fst (nth n samples (0, 0))).
Proof.
  intros Hlen.
  destruct (tone_frames (leftTone changes)
              (fun t => valueOf (createFreqFunc changes t))
              (fun t => valueOf (createVolumeFunc changes t)) samples)
    as (vl & outl & Hl & Hll & _ & Hnl).
  { discriminate. }
  { cbn. lia. }
  { cbn. exact Hlen. }
  { intros t. apply (OscillatorSpec.tones_total changes t). }
  { intros t. apply (OscillatorSpec.tones_total changes t). }
  destruct (tone_frames (rightTone changes)
              (fun t => valueOf (createFreqFunc changes t)
                        + valueOf (createBeatFreqFunc changes t))
              (fun t => valueOf (createVolumeFunc changes t)) samples)
    as (vr & outr & Hr & Hlr & _ & Hnr).
  { discriminate. }
  { cbn. lia. }
  { cbn. exact Hlen. }
  { intros t. apply (OscillatorSpec.tones_total changes t). }
  { intros t. apply (OscillatorSpec.tones_total changes t). }
  exists vl, outl, vr, outr.
  split; [exact Hl |]. split; [exact Hr |]. split; [exact Hll |].
  split; [exact Hlr |].
  intros n Hn. rewrite (Hnl n Hn), (Hnr n Hn). unfold toneEmit.
  cbn [leftTone rightTone VariableTone.channel Z.eqb fst snd].
  split; reflexivity.
Qed.

(** The oscillators of the scenario, asked for two frames that are not
    silent: the right channel of the left oscillator's output and the left
    channel of the right oscillator's output are the buffer's. *)
Lemma main_tones_never_fail_witness :
  (Z.of_nat (length twoFrames) <= maxInt)%Z
  /\ exists vl outl vr outr,
       VariableTone.Stream (leftTone scenario) twoFrames
       = Ok (vl, outl, length twoFrames, true)
       /\ VariableTone.Stream (rightTone scenario) twoFrames
          = Ok (vr, outr, length twoFrames, true)
       /\ snd (nth 1 outl (0, 0)) = snd (nth 1 twoFrames (0, 0))
       /\ fst (nth 1 outr (0, 0)) = fst (nth 1 twoFrames (0, 0)).
Proof.
  assert (H1 : (Z.of_nat (length twoFrames) <= maxInt)%Z)
    by (unfold maxInt; cbn; lia).
  split; [exact H1 |].
  destruct (main_tones_never_fail scenario twoFrames H1)
    as (vl & outl & vr & outr & Hl & Hr & _ & _ & Hb).
  exists vl, outl, vr, outr. split; [exact Hl |]. split; [exact Hr |].
  exact (Hb 1%nat ltac:(cbn; lia)).
Defined.

End OscillatorLaws.

(** ** Further laws of the pink-noise generator and of the noise gate *)

Module NoiseLaws.

Import Player Shape Signal Scenarios StreamFacts ScheduleFacts NoiseFacts.

Lemma assign_nth (a : list R) (i : nat) (v : R) (a' : list R) :
  PinkNoise.assign a i v = Ok a' ->
  length a' = length a
  /\ forall j, nth j a' 0 = if (j =? i)%nat then v else nth j a 0.
Proof.
  unfold PinkNoise.assign.
  destruct (Nat.ltb_spec i (length a)) as [Hi | Hi]; [| discriminate].
  unfold ret. intros H.
  assert (E : a' = firstn i a ++ v :: skipn (S i) a) by congruence.
  clear H. subst a'. split.
  - rewrite length_app. cbn [length]. rewrite length_firstn, length_skipn. lia.
  - intros j. destruct (Nat.eqb_spec j i) as [-> | Hne].
    + rewrite app_nth2 by (rewrite length_firstn; lia).
      rewrite length_firstn. replace (i - Nat.min i (length a))%nat with 0%nat by lia.
      reflexivity.
    + destruct (Nat.lt_ge_cases j i) as [Hlt | Hge].
      * rewrite app_nth1 by (rewrite length_firstn; lia).
        rewrite nth_firstn.
        destruct (Nat.ltb_spec j i); [reflexivity | lia].
      * rewrite app_nth2 by (rewrite length_firstn; lia).
        rewrite length_firstn.
        replace (j - Nat.min i (length a))%nat with (S (j - S i)) by lia.
        cbn [nth]. rewrite nth_skipn. f_equal. lia.
Qed.

(** What the redraw loop does to the white values and to the source. *)
Lemma redraw_effect (diff : Z) :
  forall n i0 r w r' w',
    PinkNoise.redraw diff n i0 r w = Ok (r', w') ->
    PinkNoise.draws r' = PinkNoise.draws r
    /\ PinkNoise.drawn r'
       = (PinkNoise.drawn r + length (filter (bitSet diff) (seq i0 n)))%nat
    /\ length w' = length w
    /\ forall j,
         ((i0 <= j < i0 + n)%nat /\ bitSet diff j = true
          /\ exists d, (PinkNoise.drawn r <= d < PinkNoise.drawn r')%nat
                       /\ nth j w' 0 = PinkNoise.draws r d * 2 - 1)
         \/ ((~ (i0 <= j < i0 + n)%nat \/ bitSet diff j = false)
             /\ nth j w' 0 = nth j w 0).
Proof.
  induction n as [| n IH]; intros i0 r w r' w' Hrun.
  - cbn in Hrun. injection Hrun as <- <-. cbn.
    repeat split; try lia. intros j. right. split; [left; lia | reflexivity].
  - cbn [PinkNoise.redraw] in Hrun. cbn [seq filter].
    fold (bitSet diff i0) in Hrun.
    destruct (bitSet diff i0) eqn:Hbit.
    + destruct (PinkNoise.assign w i0 _) as [w1 |] eqn:Ha; cbn [bind] in Hrun;
        [| discriminate].
      destruct (assign_nth _ _ _ _ Ha) as (Hl1 & Hn1).
      destruct (IH _ _ _ _ _ Hrun) as (Hd & Hc & Hl & Hj).
      cbn [PinkNoise.Float64 snd fst PinkNoise.draws PinkNoise.drawn] in *.
      split; [exact Hd |]. split; [cbn [length]; lia |]. split; [lia |].
      intros j. destruct (Hj j) as [(Hr & Hb & d & Hdr & Hv) | (Hout & Hv)].
      * left. split; [lia |]. split; [exact Hb |].
        exists d. split; [lia | exact Hv].
      * rewrite Hn1 in Hv. destruct (Nat.eqb_spec j i0) as [-> | Hne].
        -- left. split; [lia |]. split; [exact Hbit |].
           exists (PinkNoise.drawn r). split; [lia | exact Hv].
        -- right. split; [| exact Hv].
           destruct Hout as [Hout | Hout]; [left; lia | right; exact Hout].
    + destruct (IH _ _ _ _ _ Hrun) as (Hd & Hc & Hl & Hj).
      split; [exact Hd |]. split; [lia |]. split; [exact Hl |].
      intros j. destruct (Hj j) as [(Hr & Hb & d & Hdr & Hv) | (Hout & Hv)].
      * left. split; [lia |]. split; [exact Hb |]. exists d. split; assumption.
      * right. split; [| exact Hv].
        destruct Hout as [Hout | Hout]; [| right; exact Hout].
        destruct (Nat.eq_dec j i0) as [-> | Hne]; [right; exact Hbit | left; lia].
Qed.

(** Bit [i] of the difference between a key and its successor is set
    exactly when the successor is a multiple of [2 ^ i]. *)
Lemma refresh_bits (k : Z) (i : nat) :
  (0 <= k <= 31)%Z -> (i < 5)%nat ->
  bitSet (Z.lxor k (nextKey k)) i = (nextKey k mod 2 ^ Z.of_nat i =? 0)%Z.
Proof.
  intros Hk Hi.
  assert (Hall : forallb
                   (fun k0 =>
                      forallb
                        (fun i0 =>
                           Bool.eqb
                             (bitSet (Z.lxor (Z.of_nat k0) (nextKey (Z.of_nat k0))) i0)
                             (nextKey (Z.of_nat k0) mod 2 ^ Z.of_nat i0 =? 0)%Z)
                        (seq 0 5))
                   (seq 0 32) = true) by (vm_compute; reflexivity).
  rewrite forallb_forall in Hall.
  specialize (Hall (Z.to_nat k)).
  rewrite Z2Nat.id in Hall by lia.
  assert (Hin : In (Z.to_nat k) (seq 0 32)) by (apply in_seq; lia).
  specialize (Hall Hin). rewrite forallb_forall in Hall.
  specialize (Hall i ltac:(apply in_seq; lia)).
  apply Bool.eqb_prop. exact Hall.
Qed.

(** One step of a well-formed generator, spelled out. *)
Lemma nextSample_step (pn : PinkNoise.t) :
  wellFormed pn ->
  exists r' w',
    PinkNoise.redraw (Z.lxor (PinkNoise.key pn) (nextKey (PinkNoise.key pn))) 5 0
                     (PinkNoise.rand pn) (PinkNoise.white pn) = Ok (r', w')
    /\ length w' = 5%nat
    /\ PinkNoise.nextSample pn
       = Ok ((nth 0 w' 0 + nth 1 w' 0 + nth 2 w' 0 + nth 3 w' 0 + nth 4 w' 0) * 0.1,
             PinkNoise.mk r' 31 (nextKey (PinkNoise.key pn)) w').
Proof.
  intros (Hmax & Hkey & Hlen & _).
  destruct (redraw_ok (Z.lxor (PinkNoise.key pn) (nextKey (PinkNoise.key pn))) 5 0
              (PinkNoise.rand pn) (PinkNoise.white pn)) as (r' & w' & Hrun & Hl);
    [lia |].
  exists r', w'. rewrite Hlen in Hl. split; [exact Hrun |]. split; [exact Hl |].
  unfold PinkNoise.nextSample. rewrite Hmax.
  assert (Hk : (if (wrapUint32 (PinkNoise.key pn + 1) >? 31)%Z
                then 0%Z else wrapUint32 (PinkNoise.key pn + 1))
               = nextKey (PinkNoise.key pn)).
  { unfold wrapUint32, nextKey. rewrite Z.mod_small by lia.
    destruct (Z.gtb_spec (PinkNoise.key pn + 1) 31) as [Hgt | Hle].
    - assert (PinkNoise.key pn = 31)%Z by lia.
      replace (PinkNoise.key pn + 1)%Z with 32%Z by lia. reflexivity.
    - rewrite Z.mod_small by lia. reflexivity. }
  rewrite Hk, Hrun. cbn [bind fst snd].
  destruct w' as [| w0 [| w1 [| w2 [| w3 [| w4 [| w5 rest]]]]]];
    cbn in Hl; try discriminate.
  reflexivity.
Qed.

(** X11. One step of the Voss-McCartney generator: the key advances from
    [k] to [(k + 1) mod 32]; the white value at position [i] is replaced by a
    fresh draw, mapped to [2 * draw - 1], exactly when the new key is a
    multiple of [2 ^ i], and is kept otherwise, so position 0 is redrawn at
    every step and position [i] every [2 ^ i] steps; the step takes as many
    draws from the source as it replaces values. *)
Theorem voss_mccartney_step (pn : PinkNoise.t) :
  wellFormed pn ->
  exists p pn',
    PinkNoise.nextSample pn = Ok (p, pn')
    /\ PinkNoise.key pn' = ((PinkNoise.key pn + 1) mod 32)%Z
    /\ PinkNoise.maxKey pn' = PinkNoise.maxKey pn
    /\ PinkNoise.draws (PinkNoise.rand pn') = PinkNoise.draws (PinkNoise.rand pn)
    /\ PinkNoise.drawn (PinkNoise.rand pn')
       = (PinkNoise.drawn (PinkNoise.rand pn)
          + length (filter (fun i => (PinkNoise.key pn' mod 2 ^ Z.of_nat i =? 0)%Z)
                           (seq 0 5)))%nat
    /\ forall i, (i < 5)%nat ->
         ((PinkNoise.key pn' mod 2 ^ Z.of_nat i)%Z <> 0%Z ->
          nth i (PinkNoise.white pn') 0 = nth i (PinkNoise.white pn) 0)
         /\ ((PinkNoise.key pn' mod 2 ^ Z.of_nat i)%Z = 0%Z ->
             exists d,
               (PinkNoise.drawn (PinkNoise.rand pn) <= d
                < PinkNoise.drawn (PinkNoise.rand pn'))%nat
               /\ nth i (PinkNoise.white pn') 0
                  = PinkNoise.draws (PinkNoise.rand pn) d * 2 - 1).
Proof.
  intros Hwf. pose proof Hwf as (Hmax & Hkey & Hlen & _).
  destruct (nextSample_step pn Hwf) as (r' & w' & Hrun & Hl & Hstep).
  destruct (redraw_effect _ _ _ _ _ _ _ Hrun) as (Hd & Hc & _ & Hj).
  eexists _, _. split; [exact Hstep |].
  cbn [PinkNoise.key PinkNoise.maxKey PinkNoise.rand PinkNoise.white].
  split; [reflexivity |]. split; [symmetry; exact Hmax |]. split; [exact Hd |].
  split.
  - rewrite Hc. f_equal. f_equal. apply filter_ext_in. intros i Hi.
    apply in_seq in Hi. apply refresh_bits; lia.
  - intros i Hi. fold (nextKey (PinkNoise.key pn)).
    pose proof (refresh_bits (PinkNoise.key pn) i Hkey Hi) as Hbits.
    destruct (Hj i) as [(_ & Hb & d & Hdr & Hv) | (Hout & Hv)].
    + rewrite Hb in Hbits. symmetry in Hbits. apply Z.eqb_eq in Hbits.
      split; [intros Hne; contradiction |].
      intros _. exists d. split; [exact Hdr | exact Hv].
    + destruct Hout as [Hout | Hb]; [lia |].
      rewrite Hb in Hbits. symmetry in Hbits. apply Z.eqb_neq in Hbits.
      split; [intros _; exact Hv | intros Hz; contradiction].
Qed.

(** A fresh generator: its first step moves the key to 1 and redraws
    position 0 only. *)
Lemma voss_mccartney_step_witness :
  wellFormed (PinkNoise.NewPinkNoise halfSource)
  /\ exists p pn',
       PinkNoise.nextSample (PinkNoise.NewPinkNoise halfSource) = Ok (p, pn')
       /\ PinkNoise.key pn' = 1%Z
       /\ PinkNoise.drawn (PinkNoise.rand pn') = 1%nat.
Proof.
  assert (H : wellFormed (PinkNoise.NewPinkNoise halfSource)).
  { unfold wellFormed. cbn. repeat split; try lia.
    repeat constructor; lra. }
  split; [exact H |].
  destruct (voss_mccartney_step _ H) as (p & pn' & Hrun & Hk & _ & _ & Hc & _).
  exists p, pn'. split; [exact Hrun |]. split; [exact Hk |].
  rewrite Hc, Hk. reflexivity.
Defined.

Lemma nextSample_range (pn : PinkNoise.t) :
  wellFormed pn -> unitDraws (PinkNoise.rand pn) ->
  exists p pn',
    PinkNoise.nextSample pn = Ok (p, pn')
    /\ wellFormed pn' /\ unitDraws (PinkNoise.rand pn')
    /\ -0.5 <= p <= 0.5.
Proof.
  intros Hwf Hu. pose proof Hwf as (Hmax & Hkey & Hlen & Hall).
  destruct (nextSample_step pn Hwf) as (r' & w' & Hrun & Hl & Hstep).
  destruct (redraw_effect _ _ _ _ _ _ _ Hrun) as (Hd & _ & _ & Hj).
  assert (Hw : forall j, (j < 5)%nat -> -1 <= nth j w' 0 <= 1).
  { intros j Hlt. destruct (Hj j) as [(_ & _ & d & _ & Hv) | (_ & Hv)]; rewrite Hv.
    - specialize (Hu d). lra.
    - rewrite Forall_forall in Hall. apply Hall. apply nth_In. lia. }
  eexists _, _. split; [exact Hstep |]. split; [| split].
  - unfold wellFormed. cbn [PinkNoise.key PinkNoise.maxKey PinkNoise.white].
    split; [reflexivity |]. split.
    + unfold nextKey. pose proof (Z.mod_pos_bound (PinkNoise.key pn + 1) 32). lia.
    + split; [exact Hl |]. apply Forall_forall. intros x Hx.
      destruct (In_nth w' x 0 Hx) as (j & Hlt & <-). apply Hw. lia.
  - cbn [PinkNoise.rand]. intros d. rewrite Hd. apply Hu.
  - pose proof (Hw 0%nat ltac:(lia)). pose proof (Hw 1%nat ltac:(lia)).
    pose proof (Hw 2%nat ltac:(lia)). pose proof (Hw 3%nat ltac:(lia)).
    pose proof (Hw 4%nat ltac:(lia)). lra.
Qed.

Lemma pinkSamples_range :
  forall (k : nat) (pn : PinkNoise.t),
    wellFormed pn -> unitDraws (PinkNoise.rand pn) ->
    exists noise pn',
      pinkSamples pn k = Ok (noise, pn')
      /\ length noise = k
      /\ wellFormed pn' /\ unitDraws (PinkNoise.rand pn')
      /\ Forall (fun p => -0.5 <= p <= 0.5) noise.
Proof.
  induction k as [| k IH]; intros pn Hwf Hu.
  - exists [], pn. split; [reflexivity |]. split; [reflexivity |].
    split; [exact Hwf |]. split; [exact Hu | constructor].
  - destruct (nextSample_range pn Hwf Hu) as (p & pn1 & Hp & Hwf1 & Hu1 & Hr).
    destruct (IH pn1 Hwf1 Hu1) as (noise & pn' & Hrun & Hlen & Hwf' & Hu' & Hall).
    exists (p :: noise), pn'. cbn [pinkSamples]. rewrite Hp. cbn [bind fst snd].
    rewrite Hrun. cbn [bind ret fst snd length].
    split; [reflexivity |]. split; [lia |]. split; [exact Hwf' |].
    split; [exact Hu' |]. constructor; assumption.
Qed.

(** X12. A well-formed generator, as [NewPinkNoise] builds it, on a source
    whose draws lie in the unit interval never fails and stays well formed
    from call to call;
    each call of [Stream] adds to both channels of every frame one and the
    same value, and that value lies between -0.5 and 0.5. *)
Theorem pink_noise_stays_in_range (pn : PinkNoise.t) (samples : list Frame) :
  wellFormed pn ->
  unitDraws (PinkNoise.rand pn) ->
  exists pn' out,
    PinkNoise.Stream pn samples = Ok (pn', out, length samples, true)
    /\ wellFormed pn'
    /\ unitDraws (PinkNoise.rand pn')
    /\ length out = length samples
    /\ forall n, (n < length samples)%nat ->
         exists p, -0.5 <= p <= 0.5
                   /\ nth n out (0, 0)
                      = (fst (nth n samples (0, 0)) + p,
                         snd (nth n samples (0, 0)) + p).
Proof.
  intros Hwf Hu.
  destruct (pinkSamples_range (length samples) pn Hwf Hu)
    as (noise & pn' & Hrun & Hlen & Hwf' & Hu' & Hall).
  exists pn', (addMono samples noise).
  split; [apply pink_stream_run; exact Hrun |].
  split; [exact Hwf' |]. split; [exact Hu' |].
  split; [apply addMono_length; exact Hlen |].
  intros n Hn. exists (nth n noise 0). split.
  - rewrite Forall_forall in Hall. apply Hall. apply nth_In. lia.
  - apply addMono_nth; assumption.
Qed.

(** A fresh generator on the source that always draws 1/2. *)
Lemma pink_noise_stays_in_range_witness :
  wellFormed (PinkNoise.NewPinkNoise halfSource)
  /\ unitDraws (PinkNoise.rand (PinkNoise.NewPinkNoise halfSource))
  /\ exists pn' out,
       PinkNoise.Stream (PinkNoise.NewPinkNoise halfSource) twoFrames
       = Ok (pn', out, length twoFrames, true)
       /\ wellFormed pn'.
Proof.
  assert (H1 : wellFormed (PinkNoise.NewPinkNoise halfSource)).
  { unfold wellFormed. cbn. repeat split; try lia.
    repeat constructor; lra. }
  assert (H2 : unitDraws (PinkNoise.rand (PinkNoise.NewPinkNoise halfSource))).
  { intros d. cbn. lra. }
  split; [exact H1 |]. split; [exact H2 |].
  destruct (pink_noise_stays_in_range _ twoFrames H1 H2)
    as (pn' & out & Hrun & Hwf & _).
  exists pn', out. split; [exact Hrun | exact Hwf].
Defined.



End NoiseLaws.

(** ** Laws of the converter *)

Module ConverterLaws.

Import Converter Sessions.

Section Convert.

Variable splitColon : string -> list string.
Variable Atoi : string -> option Z.
Variable timeSeqRegex : string -> option (string * string).
Variable toneSets : string -> option ToneSet.

Local Abbreviation loop := (convertLoop splitColon Atoi timeSeqRegex toneSets).
Local Abbreviation seconds := (parseTimeToSeconds splitColon Atoi).

(** One turn of the conversion loop that did not fail. *)
Lemma convertLoop_cons (line : string) (rest : list string) (base : R)
      (acc out : list FrequencyChange) :
  loop (line :: rest) base acc = inr out ->
  exists timeSpec name toneSet newTime base',
    timeSeqRegex line = Some (timeSpec, name)
    /\ toneSets name = Some toneSet
    /\ ((String.eqb timeSpec "NOW" = true /\ newTime = 0 /\ base' = 0)
        \/ (String.eqb timeSpec "NOW" = false /\ hasPlusPrefix timeSpec = true
            /\ exists rel, seconds (trimPlusPrefix timeSpec) = inr rel
                           /\ newTime = base + rel /\ base' = base)
        \/ (String.eqb timeSpec "NOW" = false /\ hasPlusPrefix timeSpec = false
            /\ exists a, seconds timeSpec = inr a /\ newTime = a /\ base' = a))
    /\ loop rest base'
         (acc ++ [mkFrequencyChange newTime (TsFrequency toneSet)
                    (TsBeatFrequency toneSet) (TsPinkNoiseVolume toneSet)
                    (TsToneVolume toneSet)]) = inr out.
Proof.
  cbn [convertLoop].
  destruct (timeSeqRegex line) as [[timeSpec name] |]; [| discriminate].
  destruct (String.eqb timeSpec "NOW") eqn:Hnow.
  - destruct (toneSets name) as [toneSet |] eqn:Hts; [| discriminate].
    intros H. exists timeSpec, name, toneSet, 0, 0.
    split; [reflexivity |]. split; [exact Hts |]. split; [| exact H].
    left. split; [exact Hnow | split; reflexivity].
  - destruct (hasPlusPrefix timeSpec) eqn:Hplus.
    + destruct (seconds (trimPlusPrefix timeSpec)) as [e | rel] eqn:Hrel;
        [discriminate |].
      destruct (toneSets name) as [toneSet |] eqn:Hts; [| discriminate].
      intros H. exists timeSpec, name, toneSet, (base + rel), base.
      split; [reflexivity |]. split; [exact Hts |]. split; [| exact H].
      right. left. split; [exact Hnow |]. split; [exact Hplus |].
      exists rel. split; [exact Hrel | split; reflexivity].
    + destruct (seconds timeSpec) as [e | a] eqn:Habs; [discriminate |].
      destruct (toneSets name) as [toneSet |] eqn:Hts; [| discriminate].
      intros H. exists timeSpec, name, toneSet, a, a.
      split; [reflexivity |]. split; [exact Hts |]. split; [| exact H].
      right. right. split; [exact Hnow |]. split; [exact Hplus |].
      exists a. split; [exact Habs | split; reflexivity].
Qed.

Lemma convertLoop_records :
  forall (lines : list string) (base : R) (acc out : list FrequencyChange),
    loop lines base acc = inr out ->
    exists new, out = acc ++ new
                /\ Forall2 (recordOf timeSeqRegex toneSets) lines new.
Proof.
  induction lines as [| line rest IH]; intros base acc out H.
  - cbn in H. injection H as <-. exists []. split; [symmetry; apply app_nil_r | constructor].
  - destruct (convertLoop_cons _ _ _ _ _ H)
      as (timeSpec & name & toneSet & newTime & base' & Hre & Hts & _ & Hrest).
    destruct (IH _ _ _ Hrest) as (new & Hout & Hall).
    eexists (_ :: new). split.
    + rewrite Hout, <- app_assoc. reflexivity.
    + constructor; [| exact Hall].
      exists timeSpec, name, toneSet. repeat split; assumption.
Qed.

(** X14. A conversion that succeeds makes exactly one record for every
    time-sequence line, in the order of the lines; each line matched the
    time-sequence expression, names a tone set that is defined, and its
    record carries that tone set's frequency, beat frequency, pink-noise
    volume and tone volume.  A line that does not match, or that names an
    undefined tone set, therefore fails the whole conversion. *)
Theorem one_record_per_line (timeSequence : list string)
        (fcs : list FrequencyChange) :
  convertToFrequencyChanges splitColon Atoi timeSeqRegex toneSets timeSequence
  = inr fcs ->
  length fcs = length timeSequence
  /\ Forall2 (recordOf timeSeqRegex toneSets) timeSequence fcs.
Proof.
  unfold convertToFrequencyChanges. intros H.
  destruct (convertLoop_records _ _ _ _ H) as (new & -> & Hall).
  cbn [app]. split; [| exact Hall].
  symmetry. apply (Forall2_length Hall).
Qed.



End Convert.

(** The three lines of [demoSequence], converted. *)
Lemma one_record_per_line_witness :
  convertToFrequencyChanges demoSplitColon demoAtoi demoTimeSeqRegex
                            (get [("ts"%string, demoToneSet)]) demoSequence
  = inr demoRecords
  /\ length demoRecords = length demoSequence
  /\ Forall2 (recordOf demoTimeSeqRegex (get [("ts"%string, demoToneSet)]))
             demoSequence demoRecords.
Proof.
  assert (H : convertToFrequencyChanges demoSplitColon demoAtoi demoTimeSeqRegex
                (get [("ts"%string, demoToneSet)]) demoSequence
              = inr demoRecords) by reflexivity.
  split; [exact H |].
  exact (one_record_per_line demoSplitColon demoAtoi demoTimeSeqRegex
           (get [("ts"%string, demoToneSet)]) demoSequence demoRecords H).
Defined.


(** X16. [parseTimeToSeconds] needs two or three colon-separated parts and
    fails on any other number of parts.  When every part is read as an
    integer between [- 2 ^ 31] and [2 ^ 31], so that the [int] sum does not
    wrap and its conversion to [float64] is exact, it returns
    [hh * 3600 + mm * 60] on [hh:mm] and [hh * 3600 + mm * 60 + ss] on
    [hh:mm:ss].  Within these bounds no part is checked against a range:
    minutes and seconds of 60 or more, and negative parts, are accepted as
    they are.  Nothing is said of parts outside the bounds. *)
Theorem time_of_day_in_seconds
        (splitColon : string -> list string) (Atoi : string -> option Z)
        (timeStr : string) :
  (((length (splitColon timeStr) < 2)%nat \/ (3 < length (splitColon timeStr))%nat) ->
   parseTimeToSeconds splitColon Atoi timeStr = inl (InvalidTime timeStr))
  /\ (forall a b h m,
         splitColon timeStr = [a; b] ->
         Atoi a = Some h -> Atoi b = Some m ->
         (- 2 ^ 31 <= h <= 2 ^ 31)%Z -> (- 2 ^ 31 <= m <= 2 ^ 31)%Z ->
         parseTimeToSeconds splitColon Atoi timeStr
         = inr (IZR (h * 3600 + m * 60)))
  /\ (forall a b c h m sec,
         splitColon timeStr = [a; b; c] ->
         Atoi a = Some h -> Atoi b = Some m -> Atoi c = Some sec ->
         (- 2 ^ 31 <= h <= 2 ^ 31)%Z -> (- 2 ^ 31 <= m <= 2 ^ 31)%Z ->
         (- 2 ^ 31 <= sec <= 2 ^ 31)%Z ->
         parseTimeToSeconds splitColon Atoi timeStr
         = inr (IZR (h * 3600 + m * 60 + sec))).
Proof.
  unfold parseTimeToSeconds. split; [| split].
  - intros [Hlt | Hgt].
    + destruct (Nat.ltb_spec (length (splitColon timeStr)) 2); [reflexivity | lia].
    + destruct (Nat.ltb_spec (length (splitColon timeStr)) 2); [reflexivity |].
      destruct (Nat.ltb_spec 3 (length (splitColon timeStr))); [reflexivity | lia].
  - intros a b h m -> Ha Hb Hh Hm. cbn [length Nat.ltb Nat.leb orb nth Nat.eqb].
    rewrite Ha, Hb. f_equal. f_equal.
    rewrite (wrapInt_id (h * 3600)) by (unfold maxInt; lia).
    rewrite (wrapInt_id (m * 60)) by (unfold maxInt; lia).
    rewrite (wrapInt_id (h * 3600 + m * 60)) by (unfold maxInt; lia).
    rewrite wrapInt_id by (unfold maxInt; lia). lia.
  - intros a b c h m sec -> Ha Hb Hc Hh Hm Hsec.
    cbn [length Nat.ltb Nat.leb orb nth Nat.eqb].
    rewrite Ha, Hb, Hc. f_equal. f_equal.
    rewrite (wrapInt_id (h * 3600)) by (unfold maxInt; lia).
    rewrite (wrapInt_id (m * 60)) by (unfold maxInt; lia).
    rewrite (wrapInt_id (h * 3600 + m * 60)) by (unfold maxInt; lia).
    rewrite wrapInt_id by (unfold maxInt; lia). reflexivity.
Qed.

(** One hour, ninety minutes and minus five seconds. *)
Lemma time_of_day_in_seconds_witness :
  demoSplitColon "01:90:-5" = ["01"; "90"; "-5"]%string
  /\ demoAtoi "01" = Some 1%Z /\ demoAtoi "90" = Some 90%Z
  /\ demoAtoi "-5" = Some (-5)%Z
  /\ parseTimeToSeconds demoSplitColon demoAtoi "01:90:-5"
     = inr (IZR (1 * 3600 + 90 * 60 + -5)).
Proof.
  split; [reflexivity |]. split; [reflexivity |]. split; [reflexivity |].
  split; [reflexivity |].
  apply (proj2 (proj2 (time_of_day_in_seconds demoSplitColon demoAtoi "01:90:-5"))
           "01"%string "90"%string "-5"%string 1%Z 90%Z (-5)%Z);
    try reflexivity; lia.
Defined.

Section Parse.

Variable Fields : string -> list string.
Variable TrimSpace : string -> string.
Variable ParseFloat : string -> option R.
Variable toneRegex : string -> option (string * string * string).
Variable toneSetRegex : string -> option (string * string).
Variable timeSeqRegex : string -> option (string * string).

Local Abbreviation tones := (toneLoop ParseFloat toneRegex).
Local Abbreviation sbagen :=
  (sbagenLoop Fields TrimSpace ParseFloat toneRegex toneSetRegex timeSeqRegex).

Lemma toneLoop_passes_over (parts : list string) (toneSet : ToneSet) :
  tones (filter (fun part => negb (passedOver part)) parts) toneSet
  = tones parts toneSet.
Proof.
  revert toneSet. induction parts as [| part rest IH]; intros toneSet;
    [reflexivity |].
  cbn [filter]. unfold passedOver.
  destruct (String.prefix "pink/" part) eqn:Hpink; cbn [negb andb].
  - cbn [toneLoop]. rewrite Hpink.
    destruct (ParseFloat _); [apply IH | reflexivity].
  - destruct (String.prefix "mix/" part) eqn:Hmix; cbn [orb negb].
    + cbn [toneLoop]. rewrite Hpink, Hmix. apply IH.
    + destruct (String.prefix "bell" part || String.prefix "spin:" part
                || String.prefix "wave" part) eqn:Hother; cbn [negb].
      * cbn [toneLoop]. rewrite Hpink, Hmix, Hother. apply IH.
      * cbn [toneLoop]. rewrite Hpink, Hmix, Hother.
        destruct (toneRegex part) as [[[carrierStr freqStr] ampStr] |];
          [| reflexivity].
        destruct (ParseFloat carrierStr); [| reflexivity].
        destruct (negb (String.eqb freqStr ""));
          [destruct (ParseFloat freqStr); [| reflexivity] |];
          (destruct (negb (String.eqb ampStr ""));
           [destruct (ParseFloat ampStr); [| reflexivity] |]);
          apply IH.
Qed.

(** X17. [parseToneSet] passes over the parts it has no field for, those
    that start with [mix/], [bell], [spin:] or [wave] (and not with
    [pink/]): when neither definition is the string [-], a definition
    [specs'] whose fields are those of [specs] without the passed-over ones
    gives the same tone set and the same error as [specs].  The string [-]
    is tested before the definition is split and means all off only when
    it is the whole definition: [-] itself gives the zero tone set and no
    error, while a definition other than [-] whose first field is [-] is
    rejected with that field as an invalid tone specification, the tone
    expression not matching [-]. *)
Theorem passed_over_parts_do_not_count (name specs : string) :
  (forall specs',
      String.eqb specs "-" = false ->
      String.eqb specs' "-" = false ->
      Fields specs' = filter (fun part => negb (passedOver part)) (Fields specs) ->
      parseToneSet Fields ParseFloat toneRegex name specs'
      = parseToneSet Fields ParseFloat toneRegex name specs)
  /\ (forall rest,
         String.eqb specs "-" = false ->
         Fields specs = "-"%string :: rest ->
         toneRegex "-" = None ->
         parseToneSet Fields ParseFloat toneRegex name specs
         = (mkToneSet name 0 0 0 0, Some (InvalidToneSpecification "-")))
  /\ parseToneSet Fields ParseFloat toneRegex name "-"
     = (mkToneSet name 0 0 0 0, None).
Proof.
  split; [| split].
  - intros specs' Hs Hs' Hf. unfold parseToneSet.
    rewrite Hs, Hs', Hf. apply toneLoop_passes_over.
  - intros rest Hs Hf Hre. unfold parseToneSet.
    rewrite Hs, Hf. cbn [toneLoop].
    change (String.prefix "pink/" "-") with false.
    change (String.prefix "mix/" "-") with false.
    change (String.prefix "bell" "-") with false.
    change (String.prefix "spin:" "-") with false.
    change (String.prefix "wave" "-") with false.
    cbn [orb]. rewrite Hre. reflexivity.
  - reflexivity.
Qed.

Lemma sbagenLoop_skips :
  forall (lines : list string) (toneSets : toneMap) (timeSequence : list string)
         (parsingToneSets : bool),
    sbagen (filter (fun text => negb (skipped (TrimSpace text))) lines)
           toneSets timeSequence parsingToneSets
    = sbagen lines toneSets timeSequence parsingToneSets.
Proof.
  induction lines as [| text rest IH]; intros toneSets timeSequence parsing;
    [reflexivity |].
  cbn [filter]. destruct (skipped (TrimSpace text)) eqn:Hskip; cbn [negb].
  - cbn [sbagenLoop]. rewrite Hskip. apply IH.
  - cbn [sbagenLoop]. rewrite Hskip.
    destruct parsing.
    + destruct (toneSetRegex (TrimSpace text)) as [[name specs] |].
      * destruct (parseToneSet Fields ParseFloat toneRegex name specs)
          as [toneSet [err |]]; [reflexivity |].
        cbn [negb]. apply IH.
      * cbn [negb]. destruct (timeSeqRegex (TrimSpace text)); [apply IH | reflexivity].
    + cbn [negb]. destruct (timeSeqRegex (TrimSpace text)); [apply IH | reflexivity].
Qed.

(** X18. [parseSbagen] does not see blank lines and comments: removing every
    line that is empty after trimming or starts with [#] leaves its result,
    error or not, unchanged. *)
Theorem comment_lines_are_ignored (lines : list string) :
  parseSbagen Fields TrimSpace ParseFloat toneRegex toneSetRegex timeSeqRegex
              (filter (fun text => negb (skipped (TrimSpace text))) lines)
  = parseSbagen Fields TrimSpace ParseFloat toneRegex toneSetRegex timeSeqRegex
                lines.
Proof.
  unfold parseSbagen. rewrite sbagenLoop_skips. reflexivity.
Qed.

(** Once the time sequence has begun, the loop only appends lines to it. *)
Lemma sbagenLoop_sequence :
  forall (lines : list string) (toneSets toneSets' : toneMap)
         (timeSequence timeSequence' : list string),
    sbagen lines toneSets timeSequence false = inr (toneSets', timeSequence') ->
    toneSets' = toneSets
    /\ timeSequence'
       = timeSequence
         ++ filter (fun line => negb (skipped line)) (map TrimSpace lines)
    /\ Forall (fun line => exists m, timeSeqRegex line = Some m)
              (filter (fun line => negb (skipped line)) (map TrimSpace lines)).
Proof.
  induction lines as [| text rest IH]; intros toneSets toneSets' seq seq' H.
  - cbn in H. injection H as <- <-. cbn. rewrite app_nil_r.
    repeat split. constructor.
  - cbn [sbagenLoop] in H. cbn [map filter].
    destruct (skipped (TrimSpace text)) eqn:Hskip; cbn [negb] in *.
    + apply IH. exact H.
    + destruct (timeSeqRegex (TrimSpace text)) as [m |] eqn:Hre; [| discriminate].
      destruct (IH _ _ _ _ H) as (Hts & Hseq & Hall).
      split; [exact Hts |]. split.
      * rewrite Hseq, <- app_assoc. reflexivity.
      * constructor; [exists m; exact Hre | exact Hall].
Qed.

(** The loop keeps this fact: every line of the time sequence matches the
    time-sequence expression. *)
Lemma sbagenLoop_invariant :
  forall (lines : list string) (toneSets toneSets' : toneMap)
         (timeSequence timeSequence' : list string) (parsingToneSets : bool),
    sbagen lines toneSets timeSequence parsingToneSets
    = inr (toneSets', timeSequence') ->
    Forall (fun line => exists m, timeSeqRegex line = Some m) timeSequence ->
    Forall (fun line => exists m, timeSeqRegex line = Some m) timeSequence'.
Proof.
  induction lines as [| text rest IH];
    intros toneSets toneSets' seq seq' parsing H Hall.
  - cbn in H. injection H as <- <-. exact Hall.
  - cbn [sbagenLoop] in H.
    destruct (skipped (TrimSpace text)); [apply (IH _ _ _ _ _ H Hall) |].
    assert (Hstep : forall ts,
               match timeSeqRegex (TrimSpace text) with
               | Some _ => sbagen rest ts (seq ++ [TrimSpace text]) false
               | None => inl (InvalidSequenceLine (TrimSpace text))
               end = inr (toneSets', seq') ->
               Forall (fun line => exists m, timeSeqRegex line = Some m) seq').
    { intros ts Hs. destruct (timeSeqRegex (TrimSpace text)) as [m |] eqn:Hre;
        [| discriminate].
      apply (IH _ _ _ _ _ Hs). apply Forall_app. split; [exact Hall |].
      constructor; [exists m; exact Hre | constructor]. }
    destruct parsing.
    + destruct (toneSetRegex (TrimSpace text)) as [[name specs] |].
      * destruct (parseToneSet Fields ParseFloat toneRegex name specs)
          as [toneSet [err |]]; [discriminate |].
        cbn [negb] in H. apply (IH _ _ _ _ _ H Hall).
      * cbn [negb] in H. apply (Hstep _ H).
    + cbn [negb] in H. apply (Hstep _ H).
Qed.

(** Lines that all match never give the invalid-line error of the
    conversion. *)
Lemma convert_never_invalid_line (splitColon : string -> list string)
      (Atoi : string -> option Z) (toneSets : string -> option ToneSet) :
  forall (lines : list string) (base : R) (acc : list FrequencyChange)
         (line : string),
    Forall (fun l => exists m, timeSeqRegex l = Some m) lines ->
    convertLoop splitColon Atoi timeSeqRegex toneSets lines base acc
    <> inl (InvalidTimeSequenceLine line).
Proof.
  induction lines as [| l rest IH]; intros base acc line Hall.
  - cbn. discriminate.
  - inversion Hall as [| x xs (m & Hm) Hrest]; subst.
    cbn [convertLoop]. rewrite Hm. destruct m as [timeSpec name].
    destruct (String.eqb timeSpec "NOW").
    + destruct (toneSets name); [apply IH; exact Hrest | discriminate].
    + destruct (hasPlusPrefix timeSpec).
      * destruct (parseTimeToSeconds splitColon Atoi (trimPlusPrefix timeSpec));
          [discriminate |].
        destruct (toneSets name); [apply IH; exact Hrest | discriminate].
      * destruct (parseTimeToSeconds splitColon Atoi timeSpec); [discriminate |].
        destruct (toneSets name); [apply IH; exact Hrest | discriminate].
Qed.

(** X19. What [parseSbagen] returns on success: at least one tone set, a
    non-empty time sequence, and only lines that match the time-sequence
    expression; so the conversion that follows never reports an invalid
    time-sequence line, its remaining errors being a bad time or an
    undefined tone set. *)
Theorem parsed_session_feeds_conversion
        (lines : list string) (toneSets : toneMap) (timeSequence : list string) :
  parseSbagen Fields TrimSpace ParseFloat toneRegex toneSetRegex timeSeqRegex lines
  = inr (toneSets, timeSequence) ->
  toneSets <> []
  /\ timeSequence <> []
  /\ Forall (fun line => exists m, timeSeqRegex line = Some m) timeSequence
  /\ forall splitColon Atoi line,
       convertToFrequencyChanges splitColon Atoi timeSeqRegex (get toneSets)
                                 timeSequence
       <> inl (InvalidTimeSequenceLine line).
Proof.
  unfold parseSbagen.
  destruct (sbagen lines [] [] true) as [e | [ts seq]] eqn:Hloop; [discriminate |].
  destruct ts as [| t ts]; [discriminate |].
  destruct seq as [| l seq]; [discriminate |].
  cbn [length Nat.eqb]. intros H. injection H as <- <-.
  assert (Hall : Forall (fun line => exists m, timeSeqRegex line = Some m) (l :: seq)).
  { apply (sbagenLoop_invariant _ _ _ _ _ _ Hloop). constructor. }
  split; [discriminate |]. split; [discriminate |]. split; [exact Hall |].
  intros splitColon Atoi line. unfold convertToFrequencyChanges.
  apply convert_never_invalid_line. exact Hall.
Qed.

(** What the loop does while it still reads tone-set definitions. *)
Lemma sbagenLoop_definitions :
  forall (lines : list string) (toneSets toneSets' : toneMap)
         (timeSequence' : list string),
    sbagen lines toneSets [] true = inr (toneSets', timeSequence') ->
    exists defs,
      filter (fun line => negb (skipped line)) (map TrimSpace lines)
      = defs ++ timeSequence'
      /\ Forall (fun line => exists name specs toneSet,
                              toneSetRegex line = Some (name, specs)
                              /\ parseToneSet Fields ParseFloat toneRegex name specs
                                 = (toneSet, None)) defs
      /\ toneSets'
         = fold_left
             (fun m line =>
                match toneSetRegex line with
                | Some (name, specs) =>
                    put name (fst (parseToneSet Fields ParseFloat toneRegex
                                                name specs)) m
                | None => m
                end) defs toneSets
      /\ Forall (fun line => toneSetRegex line = None) (firstn 1 timeSequence').
Proof.
  induction lines as [| text rest IH]; intros toneSets toneSets' seq' H.
  - cbn in H. injection H as <- <-. exists []. cbn.
    repeat split; constructor.
  - cbn [sbagenLoop] in H. cbn [map filter].
    destruct (skipped (TrimSpace text)) eqn:Hskip; cbn [negb] in *.
    + apply IH. exact H.
    + destruct (toneSetRegex (TrimSpace text)) as [[name specs] |] eqn:Hdef.
      * destruct (parseToneSet Fields ParseFloat toneRegex name specs)
          as [toneSet [err |]] eqn:Hparse; [discriminate |].
        cbn [negb] in H.
        destruct (IH _ _ _ H) as (defs & Hsplit & Hdefs & Hmap & Hhead).
        exists (TrimSpace text :: defs). split; [cbn [app]; f_equal; exact Hsplit |].
        split.
        { constructor; [| exact Hdefs].
          exists name, specs, toneSet. split; [exact Hdef | exact Hparse]. }
        split; [| exact Hhead].
        cbn [fold_left]. rewrite Hdef, Hparse. exact Hmap.
      * cbn [negb] in H.
        destruct (timeSeqRegex (TrimSpace text)) as [m |] eqn:Hre; [| discriminate].
        destruct (sbagenLoop_sequence _ _ _ _ _ H) as (Hts & Hseq & _).
        exists []. cbn [app fold_left]. split.
        { rewrite Hseq. reflexivity. }
        split; [constructor |]. split; [exact Hts |].
        rewrite Hseq. cbn [app firstn]. constructor; [exact Hdef | constructor].
Qed.

(** X20. A file that [parseSbagen] accepts is a block of tone-set
    definitions followed by the time sequence: its lines, trimmed and without
    blank lines and comments, are the definitions followed by exactly the
    returned time sequence; every definition parsed without error; the
    returned tone sets are the definitions stored in file order, a later
    definition replacing an earlier one of the same name; and the first line
    of the time sequence is the first line that is not a definition. *)
Theorem definitions_precede_the_sequence
        (lines : list string) (toneSets : toneMap) (timeSequence : list string) :
  parseSbagen Fields TrimSpace ParseFloat toneRegex toneSetRegex timeSeqRegex lines
  = inr (toneSets, timeSequence) ->
  exists defs,
    filter (fun line => negb (skipped line)) (map TrimSpace lines)
    = defs ++ timeSequence
    /\ Forall (fun line => exists name specs toneSet,
                            toneSetRegex line = Some (name, specs)
                            /\ parseToneSet Fields ParseFloat toneRegex name specs
                               = (toneSet, None)) defs
    /\ toneSets
       = fold_left
           (fun m line =>
              match toneSetRegex line with
              | Some (name, specs) =>
                  put name (fst (parseToneSet Fields ParseFloat toneRegex
                                              name specs)) m
              | None => m
              end) defs []
    /\ Forall (fun line => toneSetRegex line = None) (firstn 1 timeSequence).
Proof.
  unfold parseSbagen.
  destruct (sbagen lines [] [] true) as [e | [ts seq]] eqn:Hloop; [discriminate |].
  destruct (length ts =? 0)%nat; [discriminate |].
  destruct (length seq =? 0)%nat; [discriminate |].
  intros H. injection H as <- <-.
  apply (sbagenLoop_definitions _ _ _ _ Hloop).
Qed.

End Parse.

(** The definition of [demoLines] with and without its [mix/100] part, and
    a dash followed by a [mix/100] part. *)
Lemma passed_over_parts_do_not_count_witness :
  String.eqb "300+10/60 mix/100 pink/40" "-" = false
  /\ String.eqb "300+10/60 pink/40" "-" = false
  /\ demoFieldsMore "300+10/60 pink/40"
     = filter (fun part => negb (passedOver part))
              (demoFieldsMore "300+10/60 mix/100 pink/40")
  /\ parseToneSet demoFieldsMore demoParseFloat demoToneRegex "ts"
       "300+10/60 pink/40"
     = parseToneSet demoFieldsMore demoParseFloat demoToneRegex "ts"
         "300+10/60 mix/100 pink/40"
  /\ String.eqb "- mix/100" "-" = false
  /\ demoFieldsMore "- mix/100" = ["-"; "mix/100"]%string
  /\ demoToneRegex "-" = None
  /\ parseToneSet demoFieldsMore demoParseFloat demoToneRegex "off" "- mix/100"
     = (mkToneSet "off" 0 0 0 0, Some (InvalidToneSpecification "-")).
Proof.
  assert (H1 : String.eqb "300+10/60 mix/100 pink/40" "-" = false) by reflexivity.
  assert (H2 : String.eqb "300+10/60 pink/40" "-" = false) by reflexivity.
  assert (H3 : demoFieldsMore "300+10/60 pink/40"
               = filter (fun part => negb (passedOver part))
                        (demoFieldsMore "300+10/60 mix/100 pink/40"))
    by reflexivity.
  assert (H4 : String.eqb "- mix/100" "-" = false) by reflexivity.
  assert (H5 : demoFieldsMore "- mix/100" = ["-"; "mix/100"]%string)
    by reflexivity.
  assert (H6 : demoToneRegex "-" = None) by reflexivity.
  split; [exact H1 |]. split; [exact H2 |]. split; [exact H3 |].
  split.
  { exact (proj1 (passed_over_parts_do_not_count demoFieldsMore demoParseFloat
                    demoToneRegex "ts" "300+10/60 mix/100 pink/40")
             "300+10/60 pink/40"%string H1 H2 H3). }
  split; [exact H4 |]. split; [exact H5 |]. split; [exact H6 |].
  exact (proj1 (proj2 (passed_over_parts_do_not_count demoFieldsMore
                         demoParseFloat demoToneRegex "off" "- mix/100"))
           ["mix/100"%string] H4 H5 H6).
Defined.

(** The demo session: one comment, one definition, one blank line and three
    time-sequence lines. *)
Lemma parsed_session_feeds_conversion_witness :
  parseSbagen demoFields demoTrimSpace demoParseFloat demoToneRegex
              demoToneSetRegex demoTimeSeqRegex demoLines
  = inr ([("ts"%string, demoToneSet)], demoSequence)
  /\ Forall (fun line => exists m, demoTimeSeqRegex line = Some m) demoSequence.
Proof.
  assert (H : parseSbagen demoFields demoTrimSpace demoParseFloat demoToneRegex
                demoToneSetRegex demoTimeSeqRegex demoLines
              = inr ([("ts"%string, demoToneSet)], demoSequence)) by reflexivity.
  split; [exact H |].
  exact (proj1 (proj2 (proj2
           (parsed_session_feeds_conversion demoFields demoTrimSpace demoParseFloat
              demoToneRegex demoToneSetRegex demoTimeSeqRegex _ _ _ H)))).
Defined.

(** The demo session again: its lines without the comment and the blank line
    are one definition followed by the time sequence. *)
Lemma definitions_precede_the_sequence_witness :
  parseSbagen demoFields demoTrimSpace demoParseFloat demoToneRegex
              demoToneSetRegex demoTimeSeqRegex demoLines
  = inr ([("ts"%string, demoToneSet)], demoSequence)
  /\ exists defs,
       filter (fun line => negb (skipped line)) (map demoTrimSpace demoLines)
       = defs ++ demoSequence.
Proof.
  assert (H : parseSbagen demoFields demoTrimSpace demoParseFloat demoToneRegex
                demoToneSetRegex demoTimeSeqRegex demoLines
              = inr ([("ts"%string, demoToneSet)], demoSequence)) by reflexivity.
  split; [exact H |].
  destruct (definitions_precede_the_sequence demoFields demoTrimSpace demoParseFloat
              demoToneRegex demoToneSetRegex demoTimeSeqRegex _ _ _ H)
    as (defs & Hsplit & _).
  exists defs. exact Hsplit.
Defined.

End ConverterLaws.
